(** * bitscore-vs-identity: the sampling engine of diamond-sensitivity

    A shallow embedding of [src/bitscore-vs-identity.py] and the proofs of
    its specification.

    The script draws random amino-acid sequences, asks DIAMOND for a
    bitscore and plots the scores.  Two things lie outside the script and
    are made explicit here:

    - the random source ([random.choice], [random.shuffle]): a tape of
      natural numbers, one cell per call of the generator's [_randbelow];
      a run that needs more cells than the tape holds is [Starved];
    - the DIAMOND processes: a script of replies, one per trial.

    Python [int]s are [Z]; the bitscores, which Python holds as finite
    floats read from decimal text, are rationals ([Q]), on which the
    comparisons the script makes ([==], [>=], [max]) agree with those of
    finite floats. *)

From Stdlib Require Import ZArith QArith Ascii String.
From stdpp Require Import gmap list strings.

Open Scope Z_scope.

(** ** Exceptions and the random-tape monad *)

Inductive exn : Set :=
| AssertionError
| IndexError
| ValueError
| ZeroDivisionError
| UnicodeDecodeError
| CalledProcessError
| TimeoutExpired
| StopIteration.

Definition tape := list nat.

Inductive outcome (A : Type) : Type :=
| Ret (a : A) (rest : tape)
| Raise (e : exn) (rest : tape)
| Starved.
Arguments Ret {A} a rest.
Arguments Raise {A} e rest.
Arguments Starved {A}.

Definition M (A : Type) : Type := tape -> outcome A.

Definition ret {A} (a : A) : M A := fun t => Ret a t.
Definition raise {A} (e : exn) : M A := fun t => Raise e t.
Definition bind {A B} (m : M A) (f : A -> M B) : M B :=
  fun t => match m t with
           | Ret a t' => f a t'
           | Raise e t' => Raise e t'
           | Starved => Starved
           end.

Notation "'let*' x := m 'in' k" := (bind m (fun x => k))
  (at level 10, x name, m at level 100, k at level 200).
Notation "'do' m 'in' k" := (bind m (fun _ => k))
  (at level 10, m at level 100, k at level 200).

(** [assert cond] *)
Definition assert (cond : bool) : M unit :=
  if cond then ret tt else raise AssertionError.

(** [raises_only P m]: every exception [m] raises satisfies [P]. *)
Definition raises_only {A} (P : exn -> Prop) (m : M A) : Prop :=
  forall t e t', m t = Raise e t' -> P e.

(** [returns m a]: some draws make [m] return [a], reading exactly those
    draws. *)
Definition returns {A} (m : M A) (a : A) : Prop :=
  exists d, forall rest, m (d ++ rest) = Ret a rest.

(** ** The Python library calls the script makes *)

Module Py.

(** [random.Random._randbelow(n)]: one cell of the tape, reduced below [n]. *)
Definition randbelow (n : nat) : M nat :=
  fun t => match t with
           | [] => Starved
           | r :: t' => Ret (r mod n)%nat t'
           end.

(** [random.choice(seq)]: [IndexError] on an empty sequence, otherwise
    [seq[_randbelow(len(seq))]]. *)
Definition choice {A} (seq : list A) : M A :=
  match seq with
  | [] => raise IndexError
  | a0 :: _ => let* i := randbelow (length seq) in ret (nth i seq a0)
  end.

(** [x[i], x[j] = x[j], x[i]] *)
Definition swap {A} (i j : nat) (x : list A) : list A :=
  match x !! i, x !! j with
  | Some xi, Some xj => <[j := xi]> (<[i := xj]> x)
  | _, _ => x
  end.

(** The loop of [random.shuffle(x)]:
    [for i in reversed(range(1, len(x))): j = randbelow(i + 1); swap]. *)
Fixpoint shuffle_from {A} (i : nat) (x : list A) : M (list A) :=
  match i with
  | O => ret x
  | S i' => let* j := randbelow (S i) in shuffle_from i' (swap i j x)
  end.

Definition shuffle {A} (x : list A) : M (list A) :=
  shuffle_from (length x - 1)%nat x.

(** [range(n)] as a list of positions. *)
Definition range_nat (n : Z) : list nat := seq 0 (Z.to_nat n).

(** [l[:k]], with Python's reading of a negative [k]. *)
Definition slice_to {A} (k : Z) (l : list A) : list A :=
  if k <? 0 then take (Z.to_nat (Z.of_nat (length l) + k)) l
  else take (Z.to_nat k) l.

(** [sum(bools)]: [True] counts for 1. *)
Definition sum_bools (l : list bool) : Z :=
  foldl (fun acc (b : bool) => acc + Z.b2z b) 0 l.

(** [[m for _ in range(n)]] *)
Fixpoint repeatM {A} (n : nat) (m : M A) : M (list A) :=
  match n with
  | O => ret []
  | S n' => let* a := m in let* l := repeatM n' m in ret (a :: l)
  end.

(** [[f(a) for a in l]] *)
Fixpoint mapM {A B} (f : A -> M B) (l : list A) : M (list B) :=
  match l with
  | [] => ret []
  | a :: l' => let* b := f a in let* bs := mapM f l' in ret (b :: bs)
  end.

(** [range(start, stop, step)]; [None] stands for the [ValueError] of a
    zero step.  The length is CPython's: for a positive step,
    [(stop - start - 1) // step + 1] when [start < stop], else none. *)
Definition range_len (start stop step : Z) : Z :=
  if 0 <? step then
    if start <? stop then (stop - start - 1) / step + 1 else 0
  else
    if stop <? start then (start - stop - 1) / (- step) + 1 else 0.

Definition range (start stop step : Z) : option (list Z) :=
  if step =? 0 then None
  else Some (map (fun k : nat => start + Z.of_nat k * step)
                 (seq 0 (Z.to_nat (range_len start stop step)))).

End Py.

(** ** The sequence generator (sampleBitScore, lines 97-115) *)

Section Generator.

(** [CODONS] of [dark.aaVars]: each one-letter residue with its codons,
    in the order of the dictionary.  The table belongs to the dark-matter
    library and is left open here. *)
Variable CODONS : list (ascii * list string).

(** [aas = list(CODONS)] *)
Definition aas : list ascii := map fst CODONS.

(** [CODONS[aa]] ([KeyError] does not arise: every [aa] comes from
    [aas]; an absent key is read as no codons). *)
Definition codonsOf (aa : ascii) : list string :=
  match list_find (fun kv => kv.1 = aa) CODONS with
  | Some (_, (_, cs)) => cs
  | None => []
  end.

(** The loop [while newAA == existingAA: newAA = choice(aas)], by
    recursion on the tape: every turn reads one cell. *)
Fixpoint redraw (existingAA newAA : ascii) (t : tape) : outcome ascii :=
  if bool_decide (newAA = existingAA) then
    match aas with
    | [] => Raise IndexError t
    | a0 :: _ =>
        match t with
        | [] => Starved
        | r :: t' => redraw existingAA (nth (r mod length aas)%nat aas a0) t'
        end
    end
  else Ret newAA t.

(** [for index in indices: ...; queryAa[index] = newAA] *)
Fixpoint mutate (subject : list ascii) (indices : list nat)
         (queryAa : list ascii) : M (list ascii) :=
  match indices with
  | [] => ret queryAa
  | index :: rest =>
      match subject !! index with
      | None => raise IndexError
      | Some existingAA =>
          let* newAA := redraw existingAA existingAA in
          mutate subject rest (<[index := newAA]> queryAa)
      end
  end.

(** [sum(a != b for (a, b) in zip(queryAa, subject.sequence))] *)
Definition mismatches (queryAa subject : list ascii) : Z :=
  Py.sum_bools (map (fun ab : ascii * ascii => negb (bool_decide (ab.1 = ab.2)))
                    (zip queryAa subject)).

Record seqPair := {
  subject : list ascii;     (* subject.sequence *)
  queryAa : list ascii;
  queryDNA : string;
}.

(** Lines 97-112: the subject, the indices to change, the query. *)
Definition generatePair (errorCount length : Z) : M seqPair :=
  let* sbj := Py.repeatM (Z.to_nat length) (Py.choice aas) in
  let* indices := Py.shuffle (Py.range_nat length) in
  let indices := Py.slice_to errorCount indices in
  let* q := mutate sbj indices sbj in
  let* dna := Py.mapM (fun aa => Py.choice (codonsOf aa)) q in
  ret {| subject := sbj; queryAa := q; queryDNA := String.concat "" dna |}.

(** Line 115: the sanity check. *)
Definition generateChecked (errorCount length : Z) : M seqPair :=
  let* p := generatePair errorCount length in
  do assert (bool_decide (errorCount = mismatches (queryAa p) (subject p))) in
  ret p.

End Generator.

(** A table the generator can run on: at least two residues, and codons
    for each. *)
Definition twoResidues (CODONS : list (ascii * list string)) : bool :=
  match aas CODONS with
  | [] => false
  | a :: l => existsb (fun b => negb (bool_decide (a = b))) l
  end.

Definition wellFormedTable (CODONS : list (ascii * list string)) : bool :=
  twoResidues CODONS
  && forallb (fun kv => match kv.2 with [] => false | _ => true end) CODONS.

(** ** The scoring oracle's reply (sampleBitScore, lines 126-153) *)

(** What the two DIAMOND processes of one trial do: [makedb] exits with an
    error, or [blastx] exits with an error, exceeds its two seconds, or
    prints its output. *)
Inductive reply : Type :=
| MakedbFailed
| BlastxFailed
| BlastxTimeout
| BlastxOutput (out : string).

Definition newline : ascii := ascii_of_nat 10.

(** [bytes.decode("ascii")] *)
Definition isAscii (out : string) : bool :=
  forallb (fun c => (nat_of_ascii c <? 128)%nat) (list_ascii_of_string out).

Definition decode_ascii (out : string) : M string :=
  if isAscii out then ret out else raise UnicodeDecodeError.

(** [str.isspace] on one ASCII character. *)
Definition isspace (c : ascii) : bool :=
  bool_decide (nat_of_ascii c ∈ [9; 10; 11; 12; 13; 28; 29; 30; 31; 32]%nat).

(** [str.rstrip()]: the white space at the end goes. *)
Fixpoint dropSpaces (l : list ascii) : list ascii :=
  match l with
  | c :: l' => if isspace c then dropSpaces l' else l
  | [] => []
  end.

Definition rstrip (s : string) : string :=
  string_of_list_ascii (rev (dropSpaces (rev (list_ascii_of_string s)))).

(** [str.split("\n")] *)
Fixpoint split_lines (s : string) : list string :=
  match s with
  | EmptyString => [EmptyString]
  | String c s' =>
      if bool_decide (c = newline) then EmptyString :: split_lines s'
      else match split_lines s' with
           | line :: lines => String c line :: lines
           | [] => [String c EmptyString]
           end
  end.

Section Oracle.

(** Python's [float] on one line of text; [None] is its [ValueError]. *)
Variable float : string -> option Q.

(** [list(map(float, lines))] *)
Definition floats (lines : list string) : M (list Q) :=
  Py.mapM (fun line => match float line with
                       | Some x => ret x
                       | None => raise ValueError
                       end) lines.

(** Lines 142-153: the score in blastx's output. *)
Definition readScore (out : string) : M Q :=
  let* text := decode_ascii out in
  let match_ := rstrip text in
  if bool_decide (match_ = EmptyString) then ret 0%Q
  else
    let* bitscores := floats (split_lines match_) in
    match bitscores with
    | [] => raise IndexError                       (* pop from empty list *)
    | bitscore :: bitscores =>
        do assert (forallb (fun b => Qle_bool b bitscore) bitscores) in
        ret bitscore
    end.

Variable CODONS : list (ascii * list string).

(** [sampleBitScore], with the reply of this trial's DIAMOND processes. *)
Definition sampleBitScore (errorCount length : Z) (r : reply) : M Q :=
  let* _p := generateChecked CODONS errorCount length in
  match r with
  | MakedbFailed => raise CalledProcessError
  | BlastxFailed => raise CalledProcessError
  | BlastxTimeout => raise TimeoutExpired
  | BlastxOutput out => readScore out
  end.

(** ** The sampler and plot driver ([plot]) *)

Definition zeroBitscoreScale : Z := 2.
Definition matchColor : string := "steelblue".
Definition missColor : string := "tomato".

(** [collections.Counter]: a missing key reads as zero. *)
Definition counterGet (c : gmap Z Z) (k : Z) : Z := default 0 (c !! k).
Definition counterIncr (c : gmap Z Z) (k : Z) : gmap Z Z :=
  <[k := counterGet c k + 1]> c.

(** The lists and counters of [plot]. *)
Record samples := {
  errorCounts : list Z;
  bitscores : list Q;
  color : list string;
  successCounts : gmap Z Z;
  missCounts : gmap Z Z;
}.

Definition noSamples : samples :=
  {| errorCounts := []; bitscores := []; color := [];
     successCounts := ∅; missCounts := ∅ |}.

(** Lines 228-235: the [else] branch of the [try]. *)
Definition recordScore (errorCount : Z) (score : Q) (st : samples) : samples :=
  if Qeq_bool score 0 then
    let missCounts' := counterIncr (missCounts st) errorCount in
    {| errorCounts := errorCounts st;
       bitscores := bitscores st ++
         [inject_Z (- counterGet missCounts' errorCount * zeroBitscoreScale)];
       color := color st ++ [missColor];
       successCounts := successCounts st;
       missCounts := missCounts' |}
  else
    {| errorCounts := errorCounts st;
       bitscores := bitscores st ++ [score];
       color := color st ++ [matchColor];
       successCounts := counterIncr (successCounts st) errorCount;
       missCounts := missCounts st |}.

(** Lines 214-235: [while iteration < iterations], by recursion on the
    script of replies: every trial that reaches DIAMOND uses one. *)
Fixpoint trials (errorCount length iterations : Z) (replies : list reply)
         (iteration : Z) (st : samples) (t : tape)
  : outcome (samples * list reply) :=
  if iteration <? iterations then
    match replies with
    | [] => Starved
    | r :: replies' =>
        match sampleBitScore errorCount length r t with
        | Raise TimeoutExpired t' =>
            trials errorCount length iterations replies' iteration st t'
        | Raise e t' => Raise e t'
        | Starved => Starved
        | Ret score t' =>
            trials errorCount length iterations replies' (iteration + 1)
                   (recordScore errorCount score st) t'
        end
    end
  else Ret (st, replies) t.

(** Line 237: [errorCounts.extend([errorCount] * iterations)] *)
Definition extendErrorCounts (errorCount iterations : Z) (st : samples) : samples :=
  {| errorCounts := errorCounts st ++ replicate (Z.to_nat iterations) errorCount;
     bitscores := bitscores st;
     color := color st;
     successCounts := successCounts st;
     missCounts := missCounts st |}.

(** Lines 209-237: [for errorCount in range(0, length, errorIncrement)] *)
Fixpoint sweep (levels : list Z) (length iterations : Z) (replies : list reply)
         (st : samples) : M (samples * list reply) :=
  match levels with
  | [] => ret (st, replies)
  | errorCount :: levels' =>
      let* r := trials errorCount length iterations replies 0 st in
      sweep levels' length iterations r.2
            (extendErrorCounts errorCount iterations r.1)
  end.

(** [successCounts[errorCount] / iterations]: the true quotient. *)
Definition rate (successCounts : gmap Z Z) (iterations errorCount : Z) : M Q :=
  if iterations =? 0 then raise ZeroDivisionError
  else ret (inject_Z (counterGet successCounts errorCount) / inject_Z iterations)%Q.

(** [max] of a list: the first of the greatest items, [ValueError] on
    none. *)
Definition pymax (l : list Q) : M Q :=
  match l with
  | [] => raise ValueError
  | x :: l' => ret (foldl (fun m y => if Qle_bool y m then m else y) x l')
  end.

(** What [plot] asks of its [Axes]. *)
Record cell := {
  scatterX : list Z;
  scatterY : list Q;
  scatterColor : list string;
  xlabel : bool;
  ylabel : bool;
  xlim : Q * Q;
  ylim : Q * Q;
  successX : list Z;
  successY : list Q;
  y2label : bool;
}.

Definition plot (bottom lhs rhs : bool) (length errorIncrement iterations : Z)
           (replies : list reply) : M (cell * list reply) :=
  match Py.range 0 length errorIncrement with
  | None => raise ValueError
  | Some levels =>
      let* r := sweep levels length iterations replies noSamples in
      let st := r.1 in
      let* sY := Py.mapM (rate (successCounts st) iterations) levels in
      let* top := pymax (bitscores st) in
      ret ({| scatterX := errorCounts st;
              scatterY := bitscores st;
              scatterColor := color st;
              xlabel := bottom;
              ylabel := lhs;
              xlim := (0, inject_Z (length + 1))%Q;
              ylim := (inject_Z (- (iterations + 1) * zeroBitscoreScale),
                       top + 5)%Q;
              successX := levels;
              successY := sY;
              y2label := rhs |}, r.2)
  end.

End Oracle.

(** ** The grid of subplots ([main], lines 278-318) *)

(** Modelled from the spec: [dimensionalIterator] of [dark.dimension], which
    [main] imports and which is not among the sources.  The spec has it
    as a cursor that advances left to right, top to bottom across the grid
    and stops when the grid is exhausted: the cells in row-major order. *)
Definition dimensionalIterator (rows cols : Z) : list (Z * Z) :=
  flat_map (fun r : nat => map (fun c : nat => (Z.of_nat r, Z.of_nat c))
                               (seq 0 (Z.to_nat cols)))
           (seq 0 (Z.to_nat rows)).

(** [count // cols + bool(count % cols)] *)
Definition gridRows (count cols : Z) : Z :=
  count / cols + Z.b2z (negb (count mod cols =? 0)).

Section Main.

Variable float : string -> option Q.
Variable CODONS : list (ascii * list string).

(** The command line: [--length], [--errorIncrement], [--iterations]. *)
Variables (length errorIncrement iterations : Z).

Record placed := {
  row : Z;
  col : Z;
  sensitivity : option string;
  drawn : cell;
}.

Record figure := {
  subplots : list placed;
  switchedOff : list (Z * Z);    (* [axes[row][col].axis("off")] *)
}.

(** Lines 296-312: one [next(dimensions)] and one [plot] per sensitivity. *)
Fixpoint placeAll (rows cols : Z) (sens : list (option string))
         (dimensions : list (Z * Z)) (replies : list reply)
  : M (list placed * list (Z * Z) * list reply) :=
  match sens with
  | [] => ret ([], dimensions, replies)
  | s :: sens' =>
      match dimensions with
      | [] => raise StopIteration
      | (r, c) :: dimensions' =>
          let* p := plot float CODONS (r =? rows - 1) (c =? 0) (c =? cols - 1)
                         length errorIncrement iterations replies in
          let* rest := placeAll rows cols sens' dimensions' p.2 in
          ret ({| row := r; col := c; sensitivity := s; drawn := p.1 |}
                 :: rest.1.1, rest.1.2, rest.2)
      end
  end.

Definition layout (sens : list (option string)) (cols : Z)
           (replies : list reply) : M (figure * list reply) :=
  let rows := gridRows (Z.of_nat (List.length sens)) cols in
  let dimensions := dimensionalIterator rows cols in
  let* r := placeAll rows cols sens dimensions replies in
  ret ({| subplots := r.1.1; switchedOff := r.1.2 |}, r.2).

Definition sensitivities : list (option string) :=
  [None; Some "faster"; Some "fast"; Some "very-sensitive";
   Some "mid-sensitive"; Some "more-sensitive"; Some "sensitive";
   Some "ultra-sensitive"]%string.

Definition cols : Z := 3.

Definition main (replies : list reply) : M (figure * list reply) :=
  layout sensitivities cols replies.

End Main.

(** ** Instances to run the definitions on *)

(** A three-residue table in the shape of [CODONS]. *)
Definition codonsACD : list (ascii * list string) :=
  [("A"%char, ["GCT"; "GCC"; "GCA"; "GCG"]);
   ("C"%char, ["TGT"; "TGC"]);
   ("D"%char, ["GAT"; "GAC"])]%string.

(** A reader of unsigned decimal literals such as [52.4], the form in which
    DIAMOND prints a bitscore: the part of [float] the examples use. *)
Definition digitOf (c : ascii) : option Z :=
  let n := nat_of_ascii c in
  if ((48 <=? n) && (n <=? 57))%nat then Some (Z.of_nat n - 48) else None.

Fixpoint readDigits (s : string) (seen : bool) (num : Z) (den : option positive)
  : option Q :=
  match s with
  | EmptyString =>
      if seen then Some (num # default 1%positive den) else None
  | String c s' =>
      match digitOf c with
      | Some d => readDigits s' true (10 * num + d) ((fun p => 10 * p)%positive <$> den)
      | None =>
          if bool_decide (c = "."%char) then
            match den with
            | None => readDigits s' seen num (Some 1%positive)
            | Some _ => None
            end
          else None
      end
  end.

Definition readDecimal (s : string) : option Q := readDigits s false 0 None.


Definition tape0 : tape := [0; 1; 2; 0; 3; 1; 0; 1; 1; 0; 0; 2; 0; 1; 0; 1; 0]%nat.

Definition pairSame : seqPair :=
  {| subject := ["A"; "C"; "D"; "A"]%char;
     queryAa := ["A"; "C"; "D"; "A"]%char;
     queryDNA := "GCCTGCGATGCT" |}.

Definition pairApart : seqPair :=
  {| subject := ["A"; "C"; "D"; "A"]%char;
     queryAa := ["C"; "A"; "C"; "D"]%char;
     queryDNA := "TGTGCCTGTGAC" |}.

Definition pairTwo : seqPair :=
  {| subject := ["A"; "C"; "D"; "A"]%char;
     queryAa := ["C"; "C"; "C"; "A"]%char;
     queryDNA := "TGTTGTTGTGCT" |}.

(** Outputs of [diamond blastx --outfmt 6 bitscore]: two hits best first,
    two hits worst first, one hit, no hit. *)
Definition line (s : string) : string := s ++ String newline EmptyString.
Definition outSorted : string := line "52.4" ++ line "50.1".
Definition outUnsorted : string := line "50.1" ++ line "52.4".
Definition outHit : string := line "52.4".
Definition outNone : string := "".

(** Draws for whole sweeps, and a script of replies for a sweep of two
    levels with three trials each, one trial timing out. *)
Definition drawsAB : tape := concat (replicate 200 [0; 1]%nat).

Definition script : list reply :=
  [BlastxOutput outHit; BlastxTimeout; BlastxOutput outNone; BlastxOutput outNone;
   BlastxOutput outNone; BlastxOutput outSorted; BlastxOutput outHit].

Definition cellExample : cell :=
  {| scatterX := [0; 0; 0; 5; 5; 5];
     scatterY := [524 # 10; inject_Z (-2); inject_Z (-4);
                  inject_Z (-2); 524 # 10; 524 # 10]%Q;
     scatterColor := [matchColor; missColor; missColor;
                      missColor; matchColor; matchColor];
     xlabel := true;
     ylabel := true;
     xlim := (0, inject_Z 11)%Q;
     ylim := (inject_Z (-8), (524 # 10) + 5)%Q;
     successX := [0; 5];
     successY := [inject_Z 1 / inject_Z 3; inject_Z 2 / inject_Z 3]%Q;
     y2label := false |}.


(** ** The sample set, as the specification reads it *)

Section Trace.

Variable float : string -> option Q.
Variable CODONS : list (ascii * list string).

(** [scored e len replies t ss replies' t']: from the replies and the
    tape, the trials at level [e] that returned gave the scores [ss], in
    order; the trials in between timed out. *)
Inductive scored (e len : Z)
  : list reply -> tape -> list Q -> list reply -> tape -> Prop :=
| scored_done replies t : scored e len replies t [] replies t
| scored_timeout r replies t t1 ss replies' t' :
    sampleBitScore float CODONS e len r t = Raise TimeoutExpired t1 ->
    scored e len replies t1 ss replies' t' ->
    scored e len (r :: replies) t ss replies' t'
| scored_ok r replies t s t1 ss replies' t' :
    sampleBitScore float CODONS e len r t = Ret s t1 ->
    scored e len replies t1 ss replies' t' ->
    scored e len (r :: replies) t (s :: ss) replies' t'.

(** The same for the levels of a sweep, one row of scores per level. *)
Inductive swept (len : Z)
  : list Z -> list reply -> tape -> list (list Q) -> list reply -> tape -> Prop :=
| swept_nil replies t : swept len [] replies t [] replies t
| swept_cons e levels replies t ss replies1 t1 trace replies' t' :
    scored e len replies t ss replies1 t1 ->
    swept len levels replies1 t1 trace replies' t' ->
    swept len (e :: levels) replies t (ss :: trace) replies' t'.

End Trace.

(** The scores of one level, recorded one after the other. *)
Definition recordScores (e : Z) (ss : list Q) (st : samples) : samples :=
  foldl (fun st s => recordScore e s st) st ss.

Definition recordSweep (iterations : Z) (levels : list Z) (trace : list (list Q))
           (st : samples) : samples :=
  foldl (fun st (row : Z * list Q) =>
           extendErrorCounts row.1 iterations (recordScores row.1 row.2 st))
        st (zip levels trace).

(** Misses and matches among the scores of a level. *)
Definition misses (ss : list Q) : Z :=
  Z.of_nat (length (filter (fun s => Qeq_bool s 0 = true) ss)).
Definition hits (ss : list Q) : Z :=
  Z.of_nat (length (filter (fun s => Qeq_bool s 0 = false) ss)).

(** What the scores of a level leave in [bitscores] and [color], from a
    miss count of [m]. *)
Fixpoint plotted (m : Z) (ss : list Q) : list (Q * string) :=
  match ss with
  | [] => []
  | s :: ss' =>
      if Qeq_bool s 0
      then (inject_Z (- (m + 1) * zeroBitscoreScale), missColor) :: plotted (m + 1) ss'
      else (s, matchColor) :: plotted m ss'
  end.

Definition rowOf (e : Z) (ss : list Q) : list (Z * (Q * string)) :=
  map (fun vc => (e, vc)) (plotted 0 ss).

Definition table (levels : list Z) (trace : list (list Q)) : list (Z * (Q * string)) :=
  concat (zip_with rowOf levels trace).

(** The trial outcomes a cell shows: mismatch count, plotted value,
    colour. *)
Definition outcomes (c : cell) : list (Z * (Q * string)) :=
  zip (scatterX c) (zip (scatterY c) (scatterColor c)).

(** The plotted values of the misses at level [e], in the order recorded. *)
Definition missValuesAt (e : Z) (c : cell) : list Q :=
  map (fun o : Z * (Q * string) => o.2.1)
      (filter (fun o : Z * (Q * string) => o.1 = e /\ o.2.2 = missColor)
              (outcomes c)).

#[global] Instance Qlt_decision (x y : Q) : Decision (x < y)%Q.
Proof.
  destruct (Qlt_le_dec x y) as [H|H]; [left; exact H|right].
  intros Hlt. exact (Qlt_not_le _ _ Hlt H).
Defined.

(** The number of trials at level [e] shown with a positive score. *)
Definition matchesAt (e : Z) (c : cell) : Z :=
  Z.of_nat (length (filter (fun o : Z * (Q * string) => o.1 = e /\ (0 < o.2.1)%Q)
                           (outcomes c))).

(** A reply whose score, if it has one, is not negative. *)
Definition nonNegative (float : string -> option Q) (r : reply) : Prop :=
  forall out t s t',
    r = BlastxOutput out -> readScore float out t = Ret s t' -> (0 <= s)%Q.

(** A reply on which a trial goes through: a time-out, or an output with
    a score. *)
Definition scoring (float : string -> option Q) (r : reply) : Prop :=
  exists out s, r = BlastxOutput out /\ forall t, readScore float out t = Ret s t.

Definition usable (float : string -> option Q) (r : reply) : Prop :=
  r = BlastxTimeout \/ scoring float r.

(** Cell [k] of the row-major numbering of a grid: row [k // cols],
    column [k % cols]. *)
Definition cellAt (cols : Z) (k : nat) : Z * Z :=
  (Z.of_nat k / cols, Z.of_nat k mod cols).

(** [enough float k replies rest]: the script holds [k] scoring replies,
    with any number of time-outs before each, and [rest] follows the last
    of them. *)
Inductive enough (float : string -> option Q)
  : nat -> list reply -> list reply -> Prop :=
| enough_O replies : enough float 0 replies replies
| enough_timeout k replies rest :
    enough float (S k) replies rest ->
    enough float (S k) (BlastxTimeout :: replies) rest
| enough_score k r replies rest :
    scoring float r -> enough float k replies rest ->
    enough float (S k) (r :: replies) rest.

(** ** Further notions for the properties of the code *)

(** A table whose codons are all triplets. *)
Definition tripletTable (CODONS : list (ascii * list string)) : bool :=
  forallb (fun kv => forallb (fun c => (String.length c =? 3)%nat) kv.2) CODONS.

(** The number of trials at level [e] shown in the match colour. *)
Definition shownMatchesAt (e : Z) (c : cell) : Z :=
  Z.of_nat (length (filter (fun o : Z * (Q * string) =>
                              o.1 = e /\ o.2.2 = matchColor) (outcomes c))).

#[global] Instance reply_eq_dec : EqDecision reply.
Proof. solve_decision. Defined.

(** The time-outs among some replies. *)
Definition timeouts (l : list reply) : nat :=
  length (filter (fun r => r = BlastxTimeout) l).

(** * Properties *)

(** ** The monad *)

Lemma bind_Ret_inv {A B} (m : M A) (f : A -> M B) t b t' :
  bind m f t = Ret b t' ->
  exists a t1, m t = Ret a t1 /\ f a t1 = Ret b t'.
Proof.
  unfold bind. destruct (m t) as [a t1| |]; [eauto | discriminate..].
Qed.

Lemma bind_Raise_inv {A B} (m : M A) (f : A -> M B) t e t' :
  bind m f t = Raise e t' ->
  m t = Raise e t' \/ exists a t1, m t = Ret a t1 /\ f a t1 = Raise e t'.
Proof.
  unfold bind. destruct (m t) as [a t1|e1 t1|]; [eauto | | discriminate].
  intros [= -> ->]. now left.
Qed.

Lemma bind_Ret_eq {A B} (m : M A) (f : A -> M B) t a t1 :
  m t = Ret a t1 -> bind m f t = f a t1.
Proof. unfold bind. now intros ->. Qed.

Lemma raises_only_ret {A} P (a : A) : raises_only P (ret a).
Proof. intros t e t'. discriminate. Qed.

Lemma raises_only_raise {A} (P : exn -> Prop) e : P e -> raises_only P (@raise A e).
Proof. intros HP t e' t' [= <- _]. exact HP. Qed.

Lemma raises_only_bind {A B} P (m : M A) (f : A -> M B) :
  raises_only P m -> (forall a, raises_only P (f a)) -> raises_only P (bind m f).
Proof.
  intros Hm Hf t e t' [H | (a & t1 & _ & H)]%bind_Raise_inv; eauto.
  eapply Hf; eauto.
Qed.

Lemma raises_only_randbelow P n : raises_only P (Py.randbelow n).
Proof. intros [|r t] e t'; discriminate. Qed.

Lemma raises_only_choice {A} (seq : list A) :
  raises_only (fun e => e = IndexError) (Py.choice seq).
Proof.
  destruct seq as [|a0 seq]; cbn [Py.choice].
  - now apply raises_only_raise.
  - apply raises_only_bind; [apply raises_only_randbelow|].
    intros i. apply raises_only_ret.
Qed.

Lemma raises_only_repeatM {A} P n (m : M A) :
  raises_only P m -> raises_only P (Py.repeatM n m).
Proof.
  intros Hm. induction n as [|n IH]; cbn [Py.repeatM].
  - apply raises_only_ret.
  - apply raises_only_bind; [exact Hm|]. intros a.
    apply raises_only_bind; [exact IH|]. intros l. apply raises_only_ret.
Qed.

Lemma raises_only_mapM {A B} P (f : A -> M B) l :
  (forall a, raises_only P (f a)) -> raises_only P (Py.mapM f l).
Proof.
  intros Hf. induction l as [|a l IH]; cbn [Py.mapM].
  - apply raises_only_ret.
  - apply raises_only_bind; [apply Hf|]. intros b.
    apply raises_only_bind; [exact IH|]. intros bs. apply raises_only_ret.
Qed.

Lemma raises_only_shuffle_from {A} P i (x : list A) :
  raises_only P (Py.shuffle_from i x).
Proof.
  revert x. induction i as [|i IH]; intros x; cbn [Py.shuffle_from].
  - apply raises_only_ret.
  - apply raises_only_bind; [apply raises_only_randbelow|]. intros j. apply IH.
Qed.

(** ** Counting mismatches *)

Lemma sum_bools_from acc l :
  foldl (fun acc (b : bool) => acc + Z.b2z b) acc l = acc + Py.sum_bools l.
Proof.
  unfold Py.sum_bools. revert acc.
  induction l as [|c l IH]; intros acc; cbn [foldl]; [lia|].
  rewrite (IH (acc + Z.b2z c)), (IH (0 + Z.b2z c)). lia.
Qed.

Lemma sum_bools_cons b l : Py.sum_bools (b :: l) = Z.b2z b + Py.sum_bools l.
Proof. unfold Py.sum_bools at 1. cbn [foldl]. apply sum_bools_from. Qed.

Section GeneratorFacts.

Variable CODONS : list (ascii * list string).

Lemma mismatches_cons a b q s :
  mismatches (a :: q) (b :: s)
  = Z.b2z (negb (bool_decide (a = b))) + mismatches q s.
Proof. unfold mismatches. cbn [zip zip_with map]. now rewrite sum_bools_cons. Qed.

Lemma mismatches_nil_l s : mismatches [] s = 0.
Proof. reflexivity. Qed.

Lemma mismatches_same q : mismatches q q = 0.
Proof.
  induction q as [|a q IH]; [reflexivity|].
  rewrite mismatches_cons, IH, bool_decide_eq_true_2; reflexivity.
Qed.

Lemma mismatches_bounds q s : 0 <= mismatches q s <= Z.of_nat (length s).
Proof.
  revert s. induction q as [|a q IH]; intros [|b s].
  - cbn. lia.
  - rewrite mismatches_nil_l. lia.
  - cbn. lia.
  - rewrite mismatches_cons. specialize (IH s).
    cbn [length]. destruct (negb _); cbn [Z.b2z]; lia.
Qed.

(** Changing a position that still agrees with the subject adds one
    mismatch. *)
Lemma mismatches_insert q s i a b :
  length q = length s -> s !! i = Some b -> q !! i = Some b -> a <> b ->
  mismatches (<[i := a]> q) s = mismatches q s + 1.
Proof.
  revert s i. induction q as [|c q IH]; intros [|d s] i Hlen Hs Hq Hab;
    try discriminate.
  destruct i as [|i]; cbn in Hs, Hq.
  - injection Hs as ->. injection Hq as ->. simpl insert.
    rewrite !mismatches_cons.
    rewrite bool_decide_eq_false_2 by exact Hab.
    rewrite bool_decide_eq_true_2 by reflexivity. cbn. lia.
  - simpl insert. rewrite !mismatches_cons.
    injection Hlen as Hlen.
    rewrite (IH s i); auto. lia.
Qed.

(** All positions mismatch exactly when the count is the length. *)
Lemma mismatches_full q s :
  length q = length s -> mismatches q s = Z.of_nat (length s) ->
  forall i a b, q !! i = Some a -> s !! i = Some b -> a <> b.
Proof.
  revert s. induction q as [|c q IH]; intros [|d s] Hlen Hm i a b Hq Hs;
    try discriminate.
  rewrite mismatches_cons in Hm. cbn [length] in Hm.
  pose proof (mismatches_bounds q s) as Hb.
  injection Hlen as Hlen.
  destruct i as [|i]; cbn in Hq, Hs.
  - injection Hq as ->. injection Hs as ->. intros ->.
    rewrite bool_decide_eq_true_2 in Hm by reflexivity. cbn in Hm. lia.
  - apply (IH s Hlen) with (i := i); auto.
    destruct (negb _); cbn [Z.b2z] in Hm; lia.
Qed.

(** ** The shuffle is a permutation *)

Lemma insert_head_perm {A} (x : list A) j a b :
  x !! j = Some b -> b :: <[j := a]> x ≡ₚ a :: x.
Proof.
  revert j. induction x as [|c x IH]; intros [|j] Hj; try discriminate.
  - injection Hj as ->. cbn. apply Permutation_swap.
  - cbn in Hj. simpl insert.
    rewrite (Permutation_swap c b), (IH j Hj). apply Permutation_swap.
Qed.

Lemma swap_perm {A} i j (x : list A) : Py.swap i j x ≡ₚ x.
Proof.
  unfold Py.swap.
  destruct (x !! i) as [xi|] eqn:Hi; [|reflexivity].
  destruct (x !! j) as [xj|] eqn:Hj; [|reflexivity].
  revert i j Hi Hj. induction x as [|c x IH]; intros [|i] [|j] Hi Hj;
    try discriminate; cbn in Hi, Hj; simpl insert.
  - injection Hi as ->. injection Hj as ->. reflexivity.
  - injection Hi as ->. now apply insert_head_perm.
  - injection Hj as ->. now apply insert_head_perm.
  - now rewrite (IH i j).
Qed.

Lemma shuffle_from_perm {A} i (x x' : list A) t t' :
  Py.shuffle_from i x t = Ret x' t' -> x' ≡ₚ x.
Proof.
  revert x t. induction i as [|i IH]; intros x t; cbn [Py.shuffle_from].
  - intros [= -> _]. reflexivity.
  - intros (j & t1 & _ & H)%bind_Ret_inv.
    rewrite (IH _ _ H). apply swap_perm.
Qed.

Lemma shuffle_perm {A} (x x' : list A) t t' :
  Py.shuffle x t = Ret x' t' -> x' ≡ₚ x.
Proof. apply shuffle_from_perm. Qed.

(** ** The redraw loop and the mutation of the query *)

(** The loop is the Python one: draw with [choice] while the residue is
    the old one. *)
Lemma redraw_unfold existingAA newAA t :
  redraw CODONS existingAA newAA t
  = (if bool_decide (newAA = existingAA)
     then bind (Py.choice (aas CODONS)) (redraw CODONS existingAA)
     else ret newAA) t.
Proof.
  destruct t as [|r t]; cbn [redraw]; case_bool_decide; try reflexivity;
    unfold Py.choice, bind; destruct (aas CODONS); reflexivity.
Qed.

Lemma redraw_Ret existingAA newAA t a t' :
  redraw CODONS existingAA newAA t = Ret a t' -> a <> existingAA.
Proof.
  revert newAA. induction t as [|r t IH]; intros newAA; cbn [redraw];
    case_bool_decide as Hne; try (intros [= <- _]; exact Hne);
    destruct (aas CODONS) as [|a0 l0]; try discriminate.
  apply IH.
Qed.

Lemma raises_only_redraw existingAA newAA :
  raises_only (fun e => e = IndexError) (redraw CODONS existingAA newAA).
Proof.
  intros t. revert newAA. induction t as [|r t IH]; intros newAA e t';
    cbn [redraw]; case_bool_decide; try discriminate;
    destruct (aas CODONS) as [|a0 l0]; try discriminate;
    try (now intros [= <- _]).
  apply IH.
Qed.

Lemma raises_only_mutate sbj indices q :
  raises_only (fun e => e = IndexError) (mutate CODONS sbj indices q).
Proof.
  revert q. induction indices as [|i indices IH]; intros q; cbn [mutate].
  - apply raises_only_ret.
  - destruct (sbj !! i) as [e|]; [|now apply raises_only_raise].
    apply raises_only_bind; [apply raises_only_redraw|]. intros a. apply IH.
Qed.

Lemma mutate_spec sbj indices q t q' t' :
  NoDup indices -> length q = length sbj ->
  (forall i, i ∈ indices -> q !! i = sbj !! i) ->
  mutate CODONS sbj indices q t = Ret q' t' ->
  length q' = length sbj /\
  mismatches q' sbj = mismatches q sbj + Z.of_nat (length indices) /\
  (forall j, j ∉ indices -> q' !! j = q !! j).
Proof.
  revert q t. induction indices as [|i indices IH]; intros q t Hnd Hlen Hagree;
    cbn [mutate].
  - intros [= <- _]. cbn. split; [exact Hlen|]. split; [lia|auto].
  - destruct (sbj !! i) as [e|] eqn:Hi; [|discriminate].
    intros (a & t1 & Hre & Hmut)%bind_Ret_inv.
    apply redraw_Ret in Hre.
    apply NoDup_cons in Hnd as [Hni Hnd].
    apply IH in Hmut as (Hlen' & Hmis & Hout); auto.
    + split; [exact Hlen'|]. split.
      * rewrite Hmis, (mismatches_insert q sbj i a e); auto.
        -- cbn [length]. lia.
        -- rewrite Hagree; [exact Hi|]. left.
      * intros j Hj. rewrite Hout.
        -- apply list_lookup_insert_ne. intros ->. apply Hj. left.
        -- intros Hin. apply Hj. now right.
    + now rewrite length_insert.
    + intros j Hj. rewrite list_lookup_insert_ne.
      * apply Hagree. now right.
      * intros ->. contradiction.
Qed.

End GeneratorFacts.

(** ** Runs that return *)

Lemma returns_ret {A} (a : A) : returns (ret a) a.
Proof. exists []. reflexivity. Qed.

Lemma returns_bind {A B} (m : M A) (f : A -> M B) a b :
  returns m a -> returns (f a) b -> returns (bind m f) b.
Proof.
  intros [d1 H1] [d2 H2]. exists (d1 ++ d2). intros rest.
  rewrite <- app_assoc. unfold bind. rewrite H1. apply H2.
Qed.

Lemma returns_randbelow n k : (k < n)%nat -> returns (Py.randbelow n) k.
Proof.
  intros Hk. exists [k]. intros rest. cbn. now rewrite Nat.mod_small.
Qed.

Lemma returns_choice {A} (seq : list A) a : a ∈ seq -> returns (Py.choice seq) a.
Proof.
  intros [i Hi]%list_elem_of_lookup.
  destruct seq as [|a0 seq]; [discriminate|]. cbn [Py.choice].
  apply returns_bind with (a := i).
  - apply returns_randbelow. eapply lookup_lt_Some, Hi.
  - erewrite nth_lookup_Some by exact Hi. apply returns_ret.
Qed.

Lemma returns_repeatM {A} n (m : M A) a :
  returns m a -> returns (Py.repeatM n m) (replicate n a).
Proof.
  intros Hm. induction n as [|n IH]; cbn [Py.repeatM replicate].
  - apply returns_ret.
  - eapply returns_bind; [exact Hm|].
    eapply returns_bind; [exact IH|]. apply returns_ret.
Qed.

Lemma returns_mapM {A B} (f : A -> M B) l :
  Forall (fun a => exists b, returns (f a) b) l ->
  exists bs, returns (Py.mapM f l) bs.
Proof.
  induction 1 as [|a l [b Hb] _ [bs IH]]; cbn [Py.mapM].
  - eexists. apply returns_ret.
  - exists (b :: bs). eapply returns_bind; [exact Hb|].
    eapply returns_bind; [exact IH|]. apply returns_ret.
Qed.

Lemma returns_shuffle_from {A} i (x : list A) :
  exists x', returns (Py.shuffle_from i x) x'.
Proof.
  revert x. induction i as [|i IH]; intros x; cbn [Py.shuffle_from].
  - eexists. apply returns_ret.
  - destruct (IH (Py.swap (S i) 0 x)) as [x' Hx']. exists x'.
    eapply returns_bind; [|exact Hx']. apply returns_randbelow. lia.
Qed.

Lemma repeatM_length {A} n (m : M A) t l t' :
  Py.repeatM n m t = Ret l t' -> length l = n.
Proof.
  revert t l t'. induction n as [|n IH]; intros t l t'; cbn [Py.repeatM].
  - now intros [= <- _].
  - intros (a & t1 & _ & (l1 & t2 & H1 & [= <- _])%bind_Ret_inv)%bind_Ret_inv.
    cbn. f_equal. eapply IH, H1.
Qed.

Lemma slice_to_take {A} k (l : list A) :
  0 <= k -> Py.slice_to k l = take (Z.to_nat k) l.
Proof. intros Hk. unfold Py.slice_to. now rewrite (proj2 (Z.ltb_ge k 0)). Qed.

Section GeneratorRuns.

Variable CODONS : list (ascii * list string).

Lemma generateChecked_Ret errorCount length t p t' :
  generateChecked CODONS errorCount length t = Ret p t' ->
  generatePair CODONS errorCount length t = Ret p t' /\
  mismatches (queryAa p) (subject p) = errorCount.
Proof.
  unfold generateChecked.
  intros (p1 & t1 & Hp & (u & t2 & Ha & [= <- <-])%bind_Ret_inv)%bind_Ret_inv.
  unfold assert in Ha. case_bool_decide as Heq; [|discriminate].
  injection Ha as _ <-. split; [exact Hp|]. now rewrite <- Heq.
Qed.

(** What the generator hands over, whatever the draws. *)
Lemma generatePair_spec errorCount length t p t' :
  0 <= errorCount <= length ->
  generatePair CODONS errorCount length t = Ret p t' ->
  List.length (subject p) = Z.to_nat length /\
  List.length (queryAa p) = Z.to_nat length /\
  mismatches (queryAa p) (subject p) = errorCount.
Proof.
  intros Hec. unfold generatePair.
  intros (sbj & t1 & Hsbj & H)%bind_Ret_inv.
  apply bind_Ret_inv in H as (ix & t2 & Hsh & H).
  apply bind_Ret_inv in H as (q & t3 & Hmut & H).
  apply bind_Ret_inv in H as (dna & t4 & _ & [= <- _]).
  cbn [subject queryAa].
  apply repeatM_length in Hsbj. apply shuffle_perm in Hsh.
  rewrite slice_to_take in Hmut by lia.
  assert (Hnd : NoDup (take (Z.to_nat errorCount) ix)).
  { eapply sublist_NoDup; [|apply sublist_take].
    rewrite Hsh. apply NoDup_seq. }
  apply mutate_spec in Hmut as (Hlen & Hmis & _); auto.
  split; [exact Hsbj|]. split; [congruence|].
  rewrite Hmis, mismatches_same, length_take, Hsh.
  unfold Py.range_nat. rewrite length_seq. lia.
Qed.

Lemma generatePair_identical length t p t' :
  generatePair CODONS 0 length t = Ret p t' -> queryAa p = subject p.
Proof.
  unfold generatePair.
  intros (sbj & t1 & Hsbj & H)%bind_Ret_inv.
  apply bind_Ret_inv in H as (ix & t2 & Hsh & H).
  apply bind_Ret_inv in H as (q & t3 & Hmut & H).
  apply bind_Ret_inv in H as (dna & t4 & _ & [= <- _]).
  cbn in Hmut. now injection Hmut as <- _.
Qed.

Lemma raises_only_generatePair errorCount length :
  raises_only (fun e => e = IndexError) (generatePair CODONS errorCount length).
Proof.
  unfold generatePair.
  apply raises_only_bind; [apply raises_only_repeatM, raises_only_choice|].
  intros sbj. apply raises_only_bind; [apply raises_only_shuffle_from|].
  intros ix. apply raises_only_bind; [apply raises_only_mutate|].
  intros q. apply raises_only_bind.
  - apply raises_only_mapM. intros a. apply raises_only_choice.
  - intros dna. apply raises_only_ret.
Qed.

(** With the bounds on [errorCount] the sanity check is passed: the
    checked generator is the unchecked one. *)
Lemma generateChecked_eq errorCount length t :
  0 <= errorCount <= length ->
  generateChecked CODONS errorCount length t
  = generatePair CODONS errorCount length t.
Proof.
  intros Hec. unfold generateChecked, bind.
  destruct (generatePair CODONS errorCount length t) as [p t'| |] eqn:Hp;
    try reflexivity.
  apply generatePair_spec in Hp as (_ & _ & Hm); [|exact Hec].
  unfold assert. now rewrite bool_decide_eq_true_2.
Qed.

(** *** Draws on which the generator returns *)

Hypothesis Htable : wellFormedTable CODONS = true.

Lemma table_other e : exists a, a ∈ aas CODONS /\ a <> e.
Proof.
  unfold wellFormedTable in Htable.
  apply andb_prop in Htable as [H2 _]. unfold twoResidues in H2.
  destruct (aas CODONS) as [|a0 l]; [discriminate|].
  apply existsb_exists in H2 as (b & Hb & Hne).
  apply negb_true_iff, bool_decide_eq_false in Hne.
  destruct (decide (a0 = e)) as [->|Hae].
  - exists b. split; [right; now apply list_elem_of_In|congruence].
  - exists a0. split; [left|exact Hae].
Qed.

Lemma table_first : exists a, a ∈ aas CODONS.
Proof. destruct (table_other "A"%char) as (a & Ha & _). eauto. Qed.

Lemma table_codons a : a ∈ aas CODONS -> exists c, c ∈ codonsOf CODONS a.
Proof.
  intros Ha. unfold wellFormedTable in Htable.
  apply andb_prop in Htable as [_ Hc].
  rewrite forallb_forall in Hc.
  unfold codonsOf.
  destruct (list_find _ CODONS) as [[i [k cs]]|] eqn:Hf.
  - apply list_find_Some in Hf as (Hi & _ & _).
    assert (Hin : In (k, cs) CODONS).
    { apply list_elem_of_In, list_elem_of_lookup. eauto. }
    apply Hc in Hin. cbn in Hin. destruct cs as [|c cs]; [discriminate|].
    exists c. left.
  - apply list_find_None in Hf.
    unfold aas in Ha. apply list_elem_of_fmap in Ha as ([k cs] & -> & Hin).
    rewrite Forall_forall in Hf. now apply Hf in Hin.
Qed.

Lemma returns_redraw e a :
  a ∈ aas CODONS -> a <> e -> returns (redraw CODONS e e) a.
Proof.
  intros Ha Hne. destruct (returns_choice _ _ Ha) as [d Hd].
  exists d. intros rest. rewrite redraw_unfold.
  rewrite bool_decide_eq_true_2 by reflexivity.
  unfold bind. rewrite Hd, redraw_unfold.
  now rewrite bool_decide_eq_false_2.
Qed.

Lemma returns_mutate sbj indices q :
  Forall (fun i => is_Some (sbj !! i)) indices ->
  Forall (fun c => c ∈ aas CODONS) q ->
  exists q', returns (mutate CODONS sbj indices q) q' /\
             Forall (fun c => c ∈ aas CODONS) q'.
Proof.
  intros Hix. revert q. induction Hix as [|i indices [e He] _ IH]; intros q Hq;
    cbn [mutate].
  - exists q. split; [apply returns_ret|exact Hq].
  - rewrite He. destruct (table_other e) as (a & Ha & Hne).
    destruct (IH (<[i := a]> q)) as (q' & Hret & Hq').
    { apply Forall_insert; auto. }
    exists q'. split; [|exact Hq'].
    eapply returns_bind; [apply returns_redraw; eassumption|exact Hret].
Qed.

Lemma returns_generatePair errorCount length :
  exists p, returns (generatePair CODONS errorCount length) p.
Proof.
  destruct table_first as [a0 Ha0]. unfold generatePair.
  set (sbj := replicate (Z.to_nat length) a0).
  destruct (returns_shuffle_from (List.length (Py.range_nat length) - 1)
                                 (Py.range_nat length)) as [ix Hix].
  assert (Hperm : ix ≡ₚ Py.range_nat length).
  { destruct Hix as [d Hd]. eapply shuffle_perm. apply (Hd []). }
  destruct (returns_mutate sbj (Py.slice_to errorCount ix) sbj)
    as (q & Hq & Hqa).
  { apply Forall_forall. intros i Hi.
    assert (Hin : i ∈ ix).
    { unfold Py.slice_to in Hi.
      destruct (errorCount <? 0);
        apply elem_of_take in Hi as (k & Hk & _);
        apply list_elem_of_lookup; eauto. }
    rewrite Hperm in Hin. unfold Py.range_nat in Hin.
    apply elem_of_seq in Hin. apply lookup_lt_is_Some.
    unfold sbj. rewrite length_replicate. lia. }
  { unfold sbj. apply Forall_replicate. exact Ha0. }
  destruct (returns_mapM (fun aa => Py.choice (codonsOf CODONS aa)) q)
    as [dna Hdna].
  { eapply Forall_impl; [exact Hqa|]. intros a Ha.
    destruct (table_codons a Ha) as [c Hc]. exists c.
    now apply returns_choice. }
  eexists.
  eapply returns_bind; [apply returns_repeatM, returns_choice, Ha0|].
  eapply returns_bind; [exact Hix|].
  eapply returns_bind; [exact Hq|].
  eapply returns_bind; [exact Hdna|]. apply returns_ret.
Qed.

Lemma returns_generateChecked errorCount length :
  0 <= errorCount <= length ->
  exists p, returns (generateChecked CODONS errorCount length) p.
Proof.
  intros Hec. destruct (returns_generatePair errorCount length) as [p [d Hd]].
  exists p, d. intros rest. rewrite generateChecked_eq by exact Hec. apply Hd.
Qed.

End GeneratorRuns.

(** ** Reading the score *)

Section OracleFacts.

Variable float : string -> option Q.

Lemma floats_Ret lines xs t :
  map float lines = map Some xs -> floats float lines t = Ret xs t.
Proof.
  unfold floats. revert xs t.
  induction lines as [|line lines IH]; intros [|x xs] t Hmap;
    try discriminate; cbn [Py.mapM].
  - reflexivity.
  - cbn in Hmap. injection Hmap as Hx Hmap.
    unfold bind at 1. rewrite Hx. unfold ret at 1.
    unfold bind at 1. now rewrite (IH xs t Hmap).
Qed.

Lemma forallb_Qle b bs :
  forallb (fun x => Qle_bool x b) bs = true <-> Forall (fun x => (x <= b)%Q) bs.
Proof.
  rewrite forallb_forall, Forall_forall. split; intros H x Hx.
  - apply Qle_bool_iff, H, list_elem_of_In, Hx.
  - apply Qle_bool_iff, H, list_elem_of_In, Hx.
Qed.

(** No text left after [rstrip]: the miss. *)
Lemma readScore_none out t :
  isAscii out = true -> rstrip out = EmptyString ->
  readScore float out t = Ret 0%Q t.
Proof.
  intros Hasc Hempty. unfold readScore, decode_ascii, bind.
  rewrite Hasc. cbn. now rewrite Hempty.
Qed.

(** Scores [b :: bs] on the lines: the first, if it is the greatest. *)
Lemma readScore_some out t b bs :
  isAscii out = true -> rstrip out <> EmptyString ->
  map float (split_lines (rstrip out)) = map Some (b :: bs) ->
  readScore float out t
  = if forallb (fun x => Qle_bool x b) bs then Ret b t
    else Raise AssertionError t.
Proof.
  intros Hasc Hne Hmap. unfold readScore, decode_ascii.
  rewrite Hasc. unfold bind at 1, ret at 1.
  rewrite bool_decide_eq_false_2 by exact Hne.
  unfold bind at 1. rewrite (floats_Ret _ _ _ Hmap).
  unfold assert, bind. now destruct (forallb _ bs).
Qed.

End OracleFacts.

(** ** Counters and the recording of scores *)

Lemma counterGet_empty k : counterGet ∅ k = 0.
Proof. unfold counterGet. now rewrite lookup_empty. Qed.

Lemma counterGet_incr c k j :
  counterGet (counterIncr c k) j
  = counterGet c j + (if decide (j = k) then 1 else 0).
Proof.
  unfold counterIncr, counterGet.
  destruct (decide (j = k)) as [->|Hne].
  - rewrite lookup_insert_eq. reflexivity.
  - rewrite lookup_insert_ne by congruence. lia.
Qed.

Lemma misses_cons s ss :
  misses (s :: ss) = (if Qeq_bool s 0 then 1 else 0) + misses ss.
Proof.
  unfold misses. rewrite filter_cons.
  destruct (Qeq_bool s 0); case_decide; try congruence; simpl length; lia.
Qed.

Lemma hits_cons s ss :
  hits (s :: ss) = (if Qeq_bool s 0 then 0 else 1) + hits ss.
Proof.
  unfold hits. rewrite filter_cons.
  destruct (Qeq_bool s 0); case_decide; try congruence; simpl length; lia.
Qed.

Lemma hits_misses ss : hits ss + misses ss = Z.of_nat (length ss).
Proof.
  induction ss as [|s ss IH]; [reflexivity|].
  rewrite hits_cons, misses_cons. simpl length.
  destruct (Qeq_bool s 0); lia.
Qed.

Lemma hits_nonneg ss : 0 <= hits ss.
Proof. unfold hits. lia. Qed.

Lemma misses_nonneg ss : 0 <= misses ss.
Proof. unfold misses. lia. Qed.

Lemma plotted_length m ss : length (plotted m ss) = length ss.
Proof.
  revert m. induction ss as [|s ss IH]; intros m; cbn [plotted]; [reflexivity|].
  destruct (Qeq_bool s 0); simpl length; now rewrite IH.
Qed.

Lemma recordScores_cons e s ss st :
  recordScores e (s :: ss) st = recordScores e ss (recordScore e s st).
Proof. reflexivity. Qed.

(** One score recorded. *)
Lemma recordScore_spec e s st :
  let st' := recordScore e s st in
  let m := counterGet (missCounts st) e in
  errorCounts st' = errorCounts st /\
  bitscores st' = bitscores st ++ (plotted m [s]).*1 /\
  color st' = color st ++ (plotted m [s]).*2 /\
  (forall k, counterGet (missCounts st') k
             = counterGet (missCounts st) k
               + (if decide (k = e) then misses [s] else 0)) /\
  (forall k, counterGet (successCounts st') k
             = counterGet (successCounts st) k
               + (if decide (k = e) then hits [s] else 0)).
Proof.
  cbn zeta. unfold recordScore. rewrite misses_cons, hits_cons. cbn [plotted].
  destruct (Qeq_bool s 0);
    cbn [errorCounts bitscores color missCounts successCounts
         fmap list_fmap fst snd].
  - rewrite counterGet_incr, decide_True by reflexivity.
    repeat split; intros k; rewrite ?counterGet_incr; case_decide;
      unfold misses, hits; cbn; lia.
  - repeat split; intros k; rewrite ?counterGet_incr; case_decide;
      unfold misses, hits; cbn; lia.
Qed.

(** What recording the scores [ss] of level [e] does to the lists and the
    counters. *)
Lemma recordScores_spec e ss st :
  let st' := recordScores e ss st in
  errorCounts st' = errorCounts st /\
  bitscores st' = bitscores st ++ (plotted (counterGet (missCounts st) e) ss).*1 /\
  color st' = color st ++ (plotted (counterGet (missCounts st) e) ss).*2 /\
  (forall k, counterGet (missCounts st') k
             = counterGet (missCounts st) k
               + (if decide (k = e) then misses ss else 0)) /\
  (forall k, counterGet (successCounts st') k
             = counterGet (successCounts st) k
               + (if decide (k = e) then hits ss else 0)).
Proof.
  revert st. induction ss as [|s ss IH]; intros st; cbn zeta.
  - cbn. rewrite !app_nil_r.
    repeat split; intros k; case_decide; unfold misses, hits; cbn; lia.
  - rewrite recordScores_cons.
    destruct (IH (recordScore e s st)) as (He & Hb & Hc & Hm & Hs).
    destruct (recordScore_spec e s st) as (He1 & Hb1 & Hc1 & Hm1 & Hs1).
    rewrite He, Hb, Hc, He1, Hb1, Hc1. clear He Hb Hc He1 Hb1 Hc1.
    rewrite (Hm1 e), decide_True by reflexivity.
    rewrite <- !app_assoc, <- !fmap_app.
    assert (Hpl : plotted (counterGet (missCounts st) e) [s]
                  ++ plotted (counterGet (missCounts st) e + misses [s]) ss
                  = plotted (counterGet (missCounts st) e) (s :: ss)).
    { cbn [plotted]. rewrite misses_cons.
      destruct (Qeq_bool s 0); cbn [app]; unfold misses; cbn;
        now rewrite ?Z.add_0_r. }
    rewrite Hpl. repeat split.
    + intros k. rewrite Hm, Hm1, (misses_cons s ss), (misses_cons s []).
      case_decide; unfold misses; cbn; lia.
    + intros k. rewrite Hs, Hs1, (hits_cons s ss), (hits_cons s []).
      case_decide; unfold hits; cbn; lia.
Qed.

(** ** The loops of [plot] *)

Section SweepFacts.

Variable float : string -> option Q.
Variable CODONS : list (ascii * list string).

(** A run of the [while] loop that returns has recorded the scores of
    [iterations - iteration] trials, whatever timed out in between. *)
Lemma trials_scored e len n replies i st t st' replies' t' :
  trials float CODONS e len n replies i st t = Ret (st', replies') t' ->
  exists ss,
    scored float CODONS e len replies t ss replies' t' /\
    Z.of_nat (length ss) = Z.max 0 (n - i) /\
    st' = recordScores e ss st.
Proof.
  revert i st t. induction replies as [|r rs IH]; intros i st t;
    cbn [trials]; destruct (i <? n) eqn:Hi.
  - discriminate.
  - apply Z.ltb_ge in Hi. intros [= <- <- <-]. exists [].
    split; [constructor|]. split; [cbn; lia|reflexivity].
  - apply Z.ltb_lt in Hi.
    destruct (sampleBitScore float CODONS e len r t) as [s t1|e0 t1|] eqn:Hs.
    + intros (ss & Hsc & Hlen & ->)%IH. exists (s :: ss).
      split; [eapply scored_ok; eassumption|].
      split; [simpl length; lia|reflexivity].
    + destruct e0; try discriminate.
      intros (ss & Hsc & Hlen & ->)%IH. exists ss.
      split; [eapply scored_timeout; eassumption|]. now split.
    + discriminate.
  - apply Z.ltb_ge in Hi. intros [= <- <- <-]. exists [].
    split; [constructor|]. split; [cbn; lia|reflexivity].
Qed.

Lemma swept_length len levels replies t trace replies' t' :
  swept float CODONS len levels replies t trace replies' t' ->
  length trace = length levels.
Proof. induction 1; simpl length; congruence. Qed.

Lemma sweep_swept levels len n replies st t st' replies' t' :
  0 <= n ->
  sweep float CODONS levels len n replies st t = Ret (st', replies') t' ->
  exists trace,
    swept float CODONS len levels replies t trace replies' t' /\
    Forall (fun ss => Z.of_nat (length ss) = n) trace /\
    st' = recordSweep n levels trace st.
Proof.
  intros Hn. revert replies st t.
  induction levels as [|e levels IH]; intros replies st t; cbn [sweep].
  - intros [= <- <- <-]. exists []. split; [constructor|]. now split.
  - intros ([st1 r1] & t1 & Htr & Hsw)%bind_Ret_inv. cbn [fst snd] in Hsw.
    apply trials_scored in Htr as (ss & Hsc & Hlen & ->).
    apply IH in Hsw as (trace & Hswept & Hrows & ->).
    exists (ss :: trace). split; [econstructor; eassumption|].
    split; [constructor; [lia|exact Hrows]|reflexivity].
Qed.

End SweepFacts.

(** ** The table of outcomes *)

Lemma rowOf_fst e ss : (rowOf e ss).*1 = replicate (length ss) e.
Proof.
  unfold rowOf. rewrite <- (plotted_length 0 ss).
  induction (plotted 0 ss) as [|vc l IH]; [reflexivity|].
  cbn. now rewrite <- IH.
Qed.

Lemma rowOf_snd e ss : (rowOf e ss).*2 = plotted 0 ss.
Proof.
  unfold rowOf. induction (plotted 0 ss) as [|vc l IH]; [reflexivity|].
  cbn. f_equal. exact IH.
Qed.

Lemma table_cons e levels ss trace :
  table (e :: levels) (ss :: trace) = rowOf e ss ++ table levels trace.
Proof. reflexivity. Qed.

Lemma recordSweep_cons n e levels ss trace st :
  recordSweep n (e :: levels) (ss :: trace) st
  = recordSweep n levels trace (extendErrorCounts e n (recordScores e ss st)).
Proof. reflexivity. Qed.

(** The state after a sweep over distinct levels, every level with
    [iterations] scores. *)
Lemma recordSweep_spec n levels : forall trace st,
  length trace = length levels -> NoDup levels ->
  Forall (fun ss => Z.of_nat (length ss) = n) trace ->
  (forall e, e ∈ levels -> counterGet (missCounts st) e = 0) ->
  let st' := recordSweep n levels trace st in
  errorCounts st' = errorCounts st ++ (table levels trace).*1 /\
  bitscores st' = bitscores st ++ ((table levels trace).*2).*1 /\
  color st' = color st ++ ((table levels trace).*2).*2 /\
  (forall k, k ∉ levels ->
             counterGet (missCounts st') k = counterGet (missCounts st) k /\
             counterGet (successCounts st') k = counterGet (successCounts st) k) /\
  (forall j e ss, levels !! j = Some e -> trace !! j = Some ss ->
                  counterGet (missCounts st') e
                  = counterGet (missCounts st) e + misses ss /\
                  counterGet (successCounts st') e
                  = counterGet (successCounts st) e + hits ss).
Proof.
  induction levels as [|e levels IH]; intros [|ss trace] st Hlen Hnd Hrows Hfresh;
    try discriminate; cbn zeta.
  - cbn. rewrite !app_nil_r. repeat split; intros; discriminate.
  - cbn zeta. rewrite recordSweep_cons, table_cons.
    apply NoDup_cons in Hnd as [Hne Hnd].
    apply Forall_cons in Hrows as [Hrow Hrows].
    injection Hlen as Hlen.
    destruct (recordScores_spec e ss st) as (He1 & Hb1 & Hc1 & Hm1 & Hs1).
    cbn zeta in *.
    set (st1 := extendErrorCounts e n (recordScores e ss st)) in *.
    assert (Hfresh1 : forall e', e' ∈ levels -> counterGet (missCounts st1) e' = 0).
    { intros e' He'. unfold st1. cbn [extendErrorCounts missCounts].
      rewrite Hm1, decide_False by (intros ->; contradiction).
      rewrite Hfresh by now right. lia. }
    destruct (IH trace st1 Hlen Hnd Hrows Hfresh1) as (He & Hb & Hc & Hout & Hin).
    rewrite He, Hb, Hc. unfold st1 at 1 2 3.
    cbn [extendErrorCounts errorCounts bitscores color].
    rewrite He1, Hb1, Hc1, (Hfresh e) by left.
    rewrite !fmap_app, rowOf_fst, rowOf_snd, <- !app_assoc.
    replace (Z.to_nat n) with (length ss) by lia.
    split; [reflexivity|]. split; [reflexivity|]. split; [reflexivity|].
    split.
    + intros k [Hke Hk]%not_elem_of_cons.
      destruct (Hout k Hk) as [-> ->]. unfold st1.
      cbn [extendErrorCounts missCounts successCounts].
      rewrite Hm1, Hs1, !decide_False by exact Hke. split; lia.
    + intros j e0 ss0 Hj Ht. destruct j as [|j]; cbn in Hj, Ht.
      * injection Hj as <-. injection Ht as <-.
        destruct (Hout e Hne) as [-> ->]. unfold st1.
        cbn [extendErrorCounts missCounts successCounts].
        rewrite Hm1, Hs1, !decide_True by reflexivity. split; reflexivity.
      * assert (Hne0 : e0 <> e).
        { intros ->. apply Hne. apply list_elem_of_lookup. eauto. }
        destruct (Hin j e0 ss0 Hj Ht) as [-> ->]. unfold st1.
        cbn [extendErrorCounts missCounts successCounts].
        rewrite Hm1, Hs1, !decide_False by exact Hne0. split; lia.
Qed.

(** ** [range], [max] and the cell *)

Lemma range_levels len inc levels :
  1 <= inc -> Py.range 0 len inc = Some levels ->
  levels = map (fun k : nat => Z.of_nat k * inc)
               (seq 0 (Z.to_nat (Py.range_len 0 len inc))).
Proof.
  intros Hinc. unfold Py.range.
  destruct (inc =? 0) eqn:Hz; [discriminate|]. intros [= <-].
  apply map_ext. intros k. lia.
Qed.

Lemma range_len_spec len inc k :
  1 <= inc -> 0 <= k -> (k < Py.range_len 0 len inc <-> k * inc < len).
Proof.
  intros Hinc Hk. unfold Py.range_len.
  rewrite (proj2 (Z.ltb_lt 0 inc)) by lia.
  destruct (0 <? len) eqn:Hlen.
  - apply Z.ltb_lt in Hlen. rewrite Z.sub_0_r.
    pose proof (Z.div_mod (len - 1) inc ltac:(lia)) as Hdm.
    pose proof (Z.mod_pos_bound (len - 1) inc ltac:(lia)) as Hmod.
    split; intros H; nia.
  - apply Z.ltb_ge in Hlen. split; intros H; nia.
Qed.

Lemma range_elem len inc levels x :
  1 <= inc -> Py.range 0 len inc = Some levels ->
  (x ∈ levels <-> exists k, 0 <= k /\ x = k * inc /\ x < len).
Proof.
  intros Hinc Hr. rewrite (range_levels len inc levels Hinc Hr).
  rewrite list_elem_of_fmap. split.
  - intros (k & -> & Hk). apply elem_of_seq in Hk.
    exists (Z.of_nat k). split; [lia|]. split; [reflexivity|].
    apply range_len_spec; lia.
  - intros (k & Hk & -> & Hlt). exists (Z.to_nat k).
    split; [lia|]. apply elem_of_seq.
    apply range_len_spec in Hlt; lia.
Qed.

Lemma range_NoDup len inc levels :
  1 <= inc -> Py.range 0 len inc = Some levels -> NoDup levels.
Proof.
  intros Hinc Hr. rewrite (range_levels len inc levels Hinc Hr).
  apply NoDup_fmap_2; [|apply NoDup_seq].
  intros j k Hjk. nia.
Qed.

Lemma pymax_fold x l :
  let top := foldl (fun m y => if Qle_bool y m then m else y) x l in
  (top = x \/ top ∈ l) /\ (x <= top)%Q /\ (forall v, v ∈ l -> (v <= top)%Q).
Proof.
  revert x. induction l as [|y l IH]; intros x; cbn zeta; cbn [foldl].
  - split; [now left|]. split; [apply Qle_refl|]. intros v Hv. inversion Hv.
  - destruct (Qle_bool y x) eqn:Hyx.
    + destruct (IH x) as (Hin & Hx & Hall). apply Qle_bool_iff in Hyx.
      split; [destruct Hin; [now left|right; now right]|].
      split; [exact Hx|].
      intros v [->|Hv]%elem_of_cons; [|now apply Hall].
      eapply Qle_trans; eassumption.
    + destruct (IH y) as (Hin & Hy & Hall).
      assert (Hxy : (x <= y)%Q).
      { destruct (Qlt_le_dec x y) as [Hlt|Hle]; [now apply Qlt_le_weak|].
        apply Qle_bool_iff in Hle. congruence. }
      split; [right; destruct Hin as [->|Hin]; [left|now right]|].
      split; [eapply Qle_trans; eassumption|].
      intros v [->|Hv]%elem_of_cons; [exact Hy|now apply Hall].
Qed.

Lemma pymax_spec l t top t' :
  pymax l t = Ret top t' ->
  t' = t /\ top ∈ l /\ (forall v, v ∈ l -> (v <= top)%Q).
Proof.
  destruct l as [|x l]; [discriminate|]. cbn [pymax]. intros [= <- <-].
  destruct (pymax_fold x l) as (Hin & Hx & Hall). cbn zeta in *.
  split; [reflexivity|]. split.
  - destruct Hin as [->|Hin]; [left|now right].
  - intros v [->|Hv]%elem_of_cons; [exact Hx|now apply Hall].
Qed.

Lemma mapM_rate sc n levels t :
  n <> 0 ->
  Py.mapM (rate sc n) levels t
  = Ret (map (fun e => (inject_Z (counterGet sc e) / inject_Z n)%Q) levels) t.
Proof.
  intros Hn. induction levels as [|e levels IH]; [reflexivity|].
  cbn [Py.mapM map]. unfold bind at 1, rate at 1.
  rewrite (proj2 (Z.eqb_neq n 0) Hn). unfold ret at 1.
  unfold bind at 1. now rewrite IH.
Qed.

Section PlotFacts.

Variable float : string -> option Q.
Variable CODONS : list (ascii * list string).

(** What a cell that [plot] returns is made of. *)
Lemma plot_Ret bottom lhs rhs len inc n replies t c replies' t' :
  1 <= inc -> 1 <= n ->
  plot float CODONS bottom lhs rhs len inc n replies t = Ret (c, replies') t' ->
  exists levels trace top,
    Py.range 0 len inc = Some levels /\
    swept float CODONS len levels replies t trace replies' t' /\
    Forall (fun ss => Z.of_nat (length ss) = n) trace /\
    scatterX c = (table levels trace).*1 /\
    scatterY c = ((table levels trace).*2).*1 /\
    scatterColor c = ((table levels trace).*2).*2 /\
    successX c = levels /\
    successY c = map (fun ss => (inject_Z (hits ss) / inject_Z n)%Q) trace /\
    xlabel c = bottom /\ ylabel c = lhs /\ y2label c = rhs /\
    xlim c = (0, inject_Z (len + 1))%Q /\
    ylim c = (inject_Z (- (n + 1) * zeroBitscoreScale), top + 5)%Q /\
    top ∈ scatterY c /\ (forall v, v ∈ scatterY c -> (v <= top)%Q).
Proof.
  intros Hinc Hn. unfold plot.
  destruct (Py.range 0 len inc) as [levels|] eqn:Hr; [|discriminate].
  intros ([st r1] & t1 & Hsw & H)%bind_Ret_inv. cbn [fst snd] in H.
  rewrite (bind_Ret_eq _ _ _ _ _ (mapM_rate _ n levels t1 ltac:(lia))) in H.
  apply bind_Ret_inv in H as (top & t2 & Hmax & [= <- <- <-]).
  apply pymax_spec in Hmax as (-> & Htop & Hall).
  apply sweep_swept in Hsw as (trace & Hswept & Hrows & ->); [|lia].
  pose proof (swept_length _ _ _ _ _ _ _ _ _ Hswept) as Hlen.
  destruct (recordSweep_spec n levels trace noSamples Hlen
              (range_NoDup _ _ _ Hinc Hr) Hrows)
    as (He & Hb & Hc & Hout & Hin).
  { intros e _. apply counterGet_empty. }
  cbn zeta in *. cbn [noSamples errorCounts bitscores color app] in He, Hb, Hc.
  exists levels, trace, top.
  cbn [scatterX scatterY scatterColor successX successY xlabel ylabel
       y2label xlim ylim].
  rewrite <- He, <- Hb, <- Hc.
  repeat (split; [first [reflexivity|assumption]|]).
  split.
  - apply list_eq. intros j. rewrite !list_lookup_fmap.
    destruct (levels !! j) as [e|] eqn:Hj.
    + destruct (lookup_lt_is_Some_2 trace j) as [ss Hss].
      { rewrite Hlen. eapply lookup_lt_Some, Hj. }
      rewrite Hss. cbn. destruct (Hin j e ss Hj Hss) as [_ ->].
      cbn [noSamples successCounts]. now rewrite counterGet_empty.
    + rewrite (lookup_ge_None_2 trace j); [reflexivity|].
      rewrite Hlen. now apply lookup_ge_None.
  - repeat (split; [first [reflexivity|assumption]|]). assumption.
Qed.

End PlotFacts.

(** ** Reading the table of outcomes *)

Lemma zip_projections {A B C} (l : list (A * (B * C))) :
  zip (l.*1) (zip ((l.*2).*1) ((l.*2).*2)) = l.
Proof.
  induction l as [|[a [b c]] l IH]; [reflexivity|]. cbn. now rewrite IH.
Qed.

Lemma table_length n levels trace :
  length trace = length levels ->
  Forall (fun ss => Z.of_nat (length ss) = n) trace ->
  Z.of_nat (length (table levels trace)) = Z.of_nat (length levels) * n.
Proof.
  revert trace. induction levels as [|e levels IH]; intros [|ss trace] Hlen Hrows;
    try discriminate.
  - reflexivity.
  - rewrite table_cons, length_app. apply Forall_cons in Hrows as [Hrow Hrows].
    injection Hlen as Hlen. specialize (IH trace Hlen Hrows).
    unfold rowOf. rewrite length_map, plotted_length. simpl length. lia.
Qed.

Lemma table_fst n levels trace :
  length trace = length levels ->
  Forall (fun ss => Z.of_nat (length ss) = n) trace ->
  (table levels trace).*1 = flat_map (replicate (Z.to_nat n)) levels.
Proof.
  revert trace. induction levels as [|e levels IH]; intros [|ss trace] Hlen Hrows;
    try discriminate.
  - reflexivity.
  - rewrite table_cons, fmap_app, rowOf_fst.
    apply Forall_cons in Hrows as [Hrow Hrows]. injection Hlen as Hlen.
    rewrite (IH trace Hlen Hrows). cbn [flat_map].
    now replace (Z.to_nat n) with (length ss) by lia.
Qed.

Section Filter.

Variable P : Q * string -> Prop.
Context `{!forall vc, Decision (P vc)}.

Lemma rowOf_filter e e' ss :
  filter (fun o : Z * (Q * string) => o.1 = e /\ P o.2) (rowOf e' ss)
  = if decide (e' = e)
    then map (fun vc => (e, vc)) (filter P (plotted 0 ss))
    else [].
Proof.
  unfold rowOf. induction (plotted 0 ss) as [|vc l IH].
  - now destruct (decide (e' = e)).
  - cbn [map]. rewrite !filter_cons, IH. cbn [fst snd].
    destruct (decide (e' = e)) as [->|Hne].
    + destruct (decide (P vc)) as [Hp|Hp].
      * rewrite decide_True by auto. reflexivity.
      * rewrite decide_False by tauto. reflexivity.
    + rewrite decide_False by tauto. reflexivity.
Qed.

Lemma table_filter_absent e levels trace :
  e ∉ levels ->
  filter (fun o : Z * (Q * string) => o.1 = e /\ P o.2) (table levels trace) = [].
Proof.
  revert trace. induction levels as [|e' levels IH]; intros [|ss trace] Hne;
    try reflexivity.
  apply not_elem_of_cons in Hne as [Hne Hnin].
  rewrite table_cons, filter_app, rowOf_filter, decide_False by congruence.
  now apply IH.
Qed.

(** Over distinct levels, the outcomes of level [e] are those of its row. *)
Lemma table_filter_level e levels trace j ss :
  NoDup levels -> levels !! j = Some e -> trace !! j = Some ss ->
  filter (fun o : Z * (Q * string) => o.1 = e /\ P o.2) (table levels trace)
  = map (fun vc => (e, vc)) (filter P (plotted 0 ss)).
Proof.
  revert trace j.
  induction levels as [|e' levels IH]; intros [|ss' trace] j Hnd Hj Ht;
    try discriminate.
  apply NoDup_cons in Hnd as [Hne Hnd].
  rewrite table_cons, filter_app, rowOf_filter.
  destruct j as [|j]; cbn in Hj, Ht.
  - injection Hj as ->. injection Ht as ->.
    rewrite decide_True by reflexivity.
    rewrite table_filter_absent by exact Hne. apply app_nil_r.
  - rewrite decide_False.
    + cbn [app]. now apply (IH trace j).
    + intros ->. apply Hne. apply list_elem_of_lookup. eauto.
Qed.

End Filter.

(** The misses of a level stack downwards from the running count. *)
Lemma plotted_misses m ss :
  (filter (fun vc : Q * string => vc.2 = missColor) (plotted m ss)).*1
  = map (fun k : nat => inject_Z (- (m + Z.of_nat k) * zeroBitscoreScale))
        (seq 1 (Z.to_nat (misses ss))).
Proof.
  revert m. induction ss as [|s ss IH]; intros m; [reflexivity|].
  cbn [plotted]. rewrite misses_cons. destruct (Qeq_bool s 0).
  - rewrite filter_cons, decide_True by reflexivity.
    replace (Z.to_nat (1 + misses ss)) with (S (Z.to_nat (misses ss)))
      by (pose proof (misses_nonneg ss); lia).
    cbn [seq map fmap list_fmap fst]. f_equal.
    rewrite IH, <- (seq_shift (Z.to_nat (misses ss)) 1), map_map.
    apply map_ext. intros k.
    f_equal. lia.
  - rewrite filter_cons, decide_False by discriminate. cbn [fst snd]. apply IH.
Qed.

Lemma plotted_miss_bound m ss v :
  (v, missColor) ∈ plotted m ss ->
  exists k, m < k <= m + Z.of_nat (length ss) /\
            v = inject_Z (- k * zeroBitscoreScale).
Proof.
  revert m. induction ss as [|s ss IH]; intros m; cbn [plotted];
    [intros H; inversion H|].
  destruct (Qeq_bool s 0).
  - intros [Heq|Hin]%elem_of_cons.
    + injection Heq as ->. exists (m + 1). simpl length.
      split; [lia|reflexivity].
    + apply IH in Hin as (k & Hk & ->). exists k. simpl length. split; [lia|reflexivity].
  - intros [Heq|Hin]%elem_of_cons; [discriminate|].
    apply IH in Hin as (k & Hk & ->). exists k. simpl length. split; [lia|reflexivity].
Qed.

(** With no negative score, the positive plotted values are the hits. *)
Lemma plotted_positive m ss :
  0 <= m -> Forall (fun s => (0 <= s)%Q) ss ->
  Z.of_nat (length (filter (fun vc : Q * string => (0 < vc.1)%Q) (plotted m ss)))
  = hits ss.
Proof.
  intros Hm Hnn. revert m Hm.
  induction Hnn as [|s ss Hs Hnn IH]; intros m Hm; [reflexivity|].
  cbn [plotted]. rewrite hits_cons. destruct (Qeq_bool s 0) eqn:Hz.
  - rewrite filter_cons, decide_False.
    + rewrite IH by lia. lia.
    + cbn [fst]. unfold Qlt, inject_Z, zeroBitscoreScale. cbn. lia.
  - rewrite filter_cons, decide_True.
    + simpl length. rewrite <- (IH m Hm). lia.
    + cbn [fst]. apply Qle_lt_or_eq in Hs as [Hlt|Heq]; [exact Hlt|].
      symmetry in Heq. apply Qeq_bool_iff in Heq. congruence.
Qed.

(** ** The scores behind the table *)

Lemma table_snd_elem levels trace vc :
  vc ∈ (table levels trace).*2 -> exists ss, ss ∈ trace /\ vc ∈ plotted 0 ss.
Proof.
  revert trace. induction levels as [|e levels IH]; intros [|ss trace];
    try (intros H; inversion H; fail).
  rewrite table_cons, fmap_app, rowOf_snd.
  intros [Hin|Hin]%elem_of_app.
  - exists ss. split; [left|exact Hin].
  - apply IH in Hin as (ss' & Hss' & Hin). exists ss'. split; [now right|exact Hin].
Qed.

Section ScoreFacts.

Variable float : string -> option Q.
Variable CODONS : list (ascii * list string).

Lemma sampleBitScore_Ret e len r t s t' :
  sampleBitScore float CODONS e len r t = Ret s t' ->
  exists p t1 out,
    generateChecked CODONS e len t = Ret p t1 /\
    r = BlastxOutput out /\ readScore float out t1 = Ret s t'.
Proof.
  unfold sampleBitScore. intros (p & t1 & Hgen & H)%bind_Ret_inv.
  destruct r as [| | |out]; try discriminate. eauto 6.
Qed.

Lemma sampleBitScore_timeout e len t p t1 :
  generateChecked CODONS e len t = Ret p t1 ->
  sampleBitScore float CODONS e len BlastxTimeout t = Raise TimeoutExpired t1.
Proof.
  intros Hgen. unfold sampleBitScore. now rewrite (bind_Ret_eq _ _ _ _ _ Hgen).
Qed.

Lemma scored_nonNegative e len replies t ss replies' t' :
  Forall (nonNegative float) replies ->
  scored float CODONS e len replies t ss replies' t' ->
  Forall (fun s => (0 <= s)%Q) ss /\ Forall (nonNegative float) replies'.
Proof.
  intros Hnn Hsc. induction Hsc as [| |r replies t s t1 ss replies' t' Hs Hsc IH].
  - now split.
  - apply Forall_cons in Hnn as [_ Hnn]. auto.
  - apply Forall_cons in Hnn as [Hr Hnn].
    destruct (IH Hnn) as [Hss Hrest]. split; [|exact Hrest].
    constructor; [|exact Hss].
    apply sampleBitScore_Ret in Hs as (p & t0 & out & _ & -> & Hread).
    eapply Hr; [reflexivity|exact Hread].
Qed.

Lemma swept_nonNegative len levels replies t trace replies' t' :
  Forall (nonNegative float) replies ->
  swept float CODONS len levels replies t trace replies' t' ->
  Forall (Forall (fun s => (0 <= s)%Q)) trace.
Proof.
  intros Hnn Hsw. induction Hsw as [|e levels replies t ss r1 t1 trace r' t' Hsc Hsw IH].
  - constructor.
  - destruct (scored_nonNegative _ _ _ _ _ _ _ Hnn Hsc) as [Hss Hr1].
    constructor; auto.
Qed.

End ScoreFacts.

Lemma rate_bounds h n :
  0 <= h <= n -> 1 <= n ->
  (0 <= inject_Z h / inject_Z n)%Q /\ (inject_Z h / inject_Z n <= 1)%Q.
Proof.
  intros Hh Hn. destruct n as [|p|p]; try lia.
  unfold Qle, Qdiv, Qmult, Qinv, inject_Z. cbn. split; lia.
Qed.

(** ** The grid *)

Lemma dimensionalIterator_row cols (r : nat) :
  map (fun c : nat => (Z.of_nat r, Z.of_nat c)) (seq 0 (Z.to_nat cols))
  = map (cellAt cols) (seq (r * Z.to_nat cols) (Z.to_nat cols)).
Proof.
  rewrite <- (Nat.add_0_r (r * Z.to_nat cols)) at 1.
  rewrite <- (fmap_add_seq (r * Z.to_nat cols) 0).
  change (map (cellAt cols) (?f <$> ?l)) with (map (cellAt cols) (map f l)).
  rewrite map_map. apply map_ext_in. intros c Hc%in_seq.
  unfold cellAt. f_equal.
  - apply Z.div_unique with (r := Z.of_nat c); lia.
  - apply Z.mod_unique with (q := Z.of_nat r); lia.
Qed.

Lemma dimensionalIterator_cells rows cols :
  dimensionalIterator rows cols
  = map (cellAt cols) (seq 0 (Z.to_nat rows * Z.to_nat cols)).
Proof.
  unfold dimensionalIterator.
  induction (Z.to_nat rows) as [|r IH]; [reflexivity|].
  rewrite seq_S, flat_map_app, IH. cbn [flat_map plus]. rewrite app_nil_r.
  rewrite dimensionalIterator_row, <- map_app, <- seq_app.
  f_equal. f_equal. lia.
Qed.

(** [gridRows] is the ceiling of [count / cols]. *)
Lemma gridRows_ceiling count cols :
  1 <= cols -> 0 <= count ->
  gridRows count cols = (count + cols - 1) / cols /\
  (gridRows count cols - 1) * cols < count <= gridRows count cols * cols.
Proof.
  intros Hcols Hcount. unfold gridRows.
  pose proof (Z.div_mod count cols ltac:(lia)) as Hdm.
  pose proof (Z.mod_pos_bound count cols ltac:(lia)) as Hmod.
  destruct (count mod cols =? 0) eqn:Hz; cbn [negb Z.b2z].
  - apply Z.eqb_eq in Hz. split; [|nia].
    apply Z.div_unique with (r := cols - 1); nia.
  - apply Z.eqb_neq in Hz. split; [|nia].
    apply Z.div_unique with (r := count mod cols - 1); nia.
Qed.

Section GridFacts.

Variable float : string -> option Q.
Variable CODONS : list (ascii * list string).
Variables (length errorIncrement iterations : Z).

(** Each sensitivity takes the next cell of the cursor; the cells not
    taken are left over. *)
Lemma placeAll_cells rows cols sens : forall dimensions replies t ps left replies' t',
  placeAll float CODONS length errorIncrement iterations rows cols sens
           dimensions replies t = Ret (ps, left, replies') t' ->
  map (fun p => (row p, col p)) ps = take (List.length sens) dimensions /\
  left = drop (List.length sens) dimensions /\
  map sensitivity ps = sens /\
  (List.length sens <= List.length dimensions)%nat.
Proof.
  induction sens as [|s sens IH]; intros dimensions replies t ps left replies' t';
    cbn [placeAll].
  - intros [= <- <- <- <-]. cbn. repeat split. lia.
  - destruct dimensions as [|[r c] dimensions]; [discriminate|].
    intros ([cl r1] & t1 & _ & H)%bind_Ret_inv.
    apply bind_Ret_inv in H as ([[ps0 left0] r2] & t2 & Hrest & [= <- <- <- <-]).
    cbn [fst snd] in Hrest. apply IH in Hrest as (Hps & Hleft & Hsens & Hlen).
    cbn [map row col sensitivity List.length take drop].
    rewrite Hps, Hleft, Hsens. repeat split. cbn. lia.
Qed.

End GridFacts.

(** ** Sweeps that return *)

Lemma enough_split float a b replies rest :
  enough float (a + b) replies rest ->
  exists mid, enough float a replies mid /\ enough float b mid rest.
Proof.
  remember (a + b)%nat as m eqn:Hm. intros H. revert a b Hm.
  induction H as [replies|k replies rest H IH|k r replies rest Hr H IH];
    intros a b Hm.
  - assert (a = 0%nat) as -> by lia. assert (b = 0%nat) as -> by lia.
    exists replies. split; constructor.
  - destruct a as [|a].
    + exists (BlastxTimeout :: replies). split; [constructor|].
      cbn in Hm. subst b. now constructor.
    + destruct (IH (S a) b Hm) as (mid & Ha & Hb).
      exists mid. split; [now constructor|exact Hb].
  - destruct a as [|a].
    + exists (r :: replies). split; [constructor|].
      cbn in Hm. subst b. now constructor.
    + destruct (IH a b ltac:(lia)) as (mid & Ha & Hb).
      exists mid. split; [now constructor|exact Hb].
Qed.

Section Runs.

Variable float : string -> option Q.
Variable CODONS : list (ascii * list string).
Hypothesis Htable : wellFormedTable CODONS = true.

Lemma trials_done e len n replies i st t :
  n <= i -> trials float CODONS e len n replies i st t = Ret (st, replies) t.
Proof.
  intros Hi. destruct replies; cbn [trials];
    now rewrite (proj2 (Z.ltb_ge i n) Hi).
Qed.

(** With enough scoring replies, however many time-outs lie between them,
    there are draws on which the loop returns. *)
Lemma trials_returns e len n replies rest :
  0 <= e <= len ->
  forall i st,
    enough float (Z.to_nat (n - i)) replies rest ->
    exists st', returns (trials float CODONS e len n replies i st) (st', rest).
Proof.
  intros He i st H. remember (Z.to_nat (n - i)) as k eqn:Hk.
  revert i st Hk.
  induction H as [replies|k replies rest H IH|k r replies rest Hr H IH];
    intros i st Hk.
  - exists st, []. intros t. apply trials_done. lia.
  - destruct (IH i st Hk) as (st' & d2 & Hd2).
    destruct (returns_generateChecked CODONS Htable e len He) as (p & d1 & Hd1).
    exists st', (d1 ++ d2). intros t. cbn [trials].
    rewrite (proj2 (Z.ltb_lt i n)) by lia. rewrite <- app_assoc.
    rewrite (sampleBitScore_timeout float CODONS e len _ p _ (Hd1 (d2 ++ t))).
    apply Hd2.
  - destruct Hr as (out & s & -> & Hread).
    destruct (IH (i + 1) (recordScore e s st) ltac:(lia)) as (st' & d2 & Hd2).
    destruct (returns_generateChecked CODONS Htable e len He) as (p & d1 & Hd1).
    exists st', (d1 ++ d2). intros t. cbn [trials].
    rewrite (proj2 (Z.ltb_lt i n)) by lia. rewrite <- app_assoc.
    assert (Hs : sampleBitScore float CODONS e len (BlastxOutput out)
                                (d1 ++ d2 ++ t) = Ret s (d2 ++ t)).
    { unfold sampleBitScore.
      rewrite (bind_Ret_eq _ _ _ _ _ (Hd1 (d2 ++ t))). apply Hread. }
    rewrite Hs. apply Hd2.
Qed.

Lemma sweep_returns len n levels : forall replies rest st,
  0 <= n ->
  Forall (fun e => 0 <= e <= len) levels ->
  enough float (length levels * Z.to_nat n) replies rest ->
  exists st', returns (sweep float CODONS levels len n replies st) (st', rest).
Proof.
  induction levels as [|e levels IH]; intros replies rest st Hn Hlev Hen.
  - cbn in Hen. inversion Hen; subst. exists st. apply returns_ret.
  - apply Forall_cons in Hlev as [He Hlev].
    cbn [length Nat.mul] in Hen.
    apply enough_split in Hen as (mid & Ha & Hb).
    destruct (trials_returns e len n replies mid He 0 st) as (st1 & Hst1).
    { now rewrite Z.sub_0_r. }
    destruct (IH mid rest (extendErrorCounts e n st1) Hn Hlev Hb) as (st' & Hst').
    exists st'. cbn [sweep].
    eapply returns_bind; [exact Hst1|]. exact Hst'.
Qed.

(** A sweep whose script holds [numLevels * iterations] scoring replies
    returns a cell on suitable draws. *)
Lemma plot_returns bottom lhs rhs len inc n replies rest :
  1 <= len -> 1 <= inc -> 1 <= n ->
  enough float (Z.to_nat (((len - 1) / inc + 1) * n)) replies rest ->
  exists c, returns (plot float CODONS bottom lhs rhs len inc n replies) (c, rest).
Proof.
  intros Hlen Hinc Hn Hen.
  destruct (Py.range 0 len inc) as [levels|] eqn:Hr.
  2: { unfold Py.range in Hr. rewrite (proj2 (Z.eqb_neq inc 0)) in Hr by lia.
       discriminate. }
  assert (Hnum : Z.of_nat (length levels) = (len - 1) / inc + 1).
  { rewrite (range_levels _ _ _ Hinc Hr), length_map, length_seq.
    unfold Py.range_len.
    rewrite (proj2 (Z.ltb_lt 0 inc)), (proj2 (Z.ltb_lt 0 len)), Z.sub_0_r by lia.
    assert (0 <= (len - 1) / inc) by (apply Z.div_pos; lia). lia. }
  assert (Hlev : Forall (fun e => 0 <= e <= len) levels).
  { apply Forall_forall. intros e He.
    apply (range_elem _ _ _ e Hinc Hr) in He as (k & Hk & -> & Hlt). nia. }
  destruct (sweep_returns len n levels replies rest noSamples ltac:(lia) Hlev)
    as (st & d & Hd).
  { replace (length levels * Z.to_nat n)%nat
      with (Z.to_nat (((len - 1) / inc + 1) * n)) by nia. exact Hen. }
  pose proof (Hd []) as Hrun. rewrite app_nil_r in Hrun.
  apply sweep_swept in Hrun as (trace & Hsw & Hrows & ->); [|lia].
  pose proof (swept_length _ _ _ _ _ _ _ _ _ Hsw) as Hl.
  destruct (recordSweep_spec n levels trace noSamples Hl
              (range_NoDup _ _ _ Hinc Hr) Hrows) as (_ & Hb & _).
  { intros e _. apply counterGet_empty. }
  cbn zeta in Hb. cbn [noSamples bitscores app] in Hb.
  set (st := recordSweep n levels trace noSamples) in *.
  destruct (bitscores st) as [|x l] eqn:Hbits.
  { exfalso. apply (f_equal length) in Hb. rewrite !length_fmap in Hb.
    pose proof (table_length n levels trace Hl Hrows) as Ht.
    assert (0 <= (len - 1) / inc) by (apply Z.div_pos; lia).
    cbn in Hb. nia. }
  eexists. exists d. intros t. unfold plot. rewrite Hr.
  unfold bind at 1. rewrite Hd. cbn [fst snd].
  unfold bind at 1. rewrite mapM_rate by lia.
  unfold bind at 1. rewrite Hbits. cbn [pymax]. unfold ret. reflexivity.
Qed.

End Runs.

Section GridRuns.

Variable float : string -> option Q.
Variable CODONS : list (ascii * list string).
Hypothesis Htable : wellFormedTable CODONS = true.
Variables (len inc n : Z).
Hypotheses (Hlen : 1 <= len) (Hinc : 1 <= inc) (Hn : 1 <= n).

(** The scoring replies one subplot uses. *)
Let perPlot : nat := Z.to_nat (((len - 1) / inc + 1) * n).

Lemma placeAll_returns rows cols sens : forall dimensions replies rest,
  (length sens <= length dimensions)%nat ->
  enough float (length sens * perPlot) replies rest ->
  exists ps left,
    returns (placeAll float CODONS len inc n rows cols sens dimensions replies)
            (ps, left, rest).
Proof.
  induction sens as [|s sens IH]; intros dimensions replies rest Hdim Hen.
  - cbn in Hen. inversion Hen; subst. exists [], dimensions. apply returns_ret.
  - destruct dimensions as [|[r c] dimensions]; [cbn in Hdim; lia|].
    cbn [length Nat.mul] in Hen. apply enough_split in Hen as (mid & Ha & Hb).
    destruct (plot_returns float CODONS Htable (r =? rows - 1) (c =? 0)
                (c =? cols - 1) len inc n replies mid Hlen Hinc Hn Ha)
      as (cl & Hcl).
    destruct (IH dimensions mid rest) as (ps & left & Hps);
      [cbn in Hdim; lia | exact Hb |].
    eexists _, _. cbn [placeAll].
    eapply returns_bind; [exact Hcl|]. cbn [fst snd].
    eapply returns_bind; [exact Hps|]. apply returns_ret.
Qed.

(** With [perPlot] scoring replies for every configuration, there are
    draws on which the whole figure is laid out. *)
Lemma layout_returns sens cols replies rest :
  1 <= cols ->
  enough float (length sens * perPlot) replies rest ->
  exists fig, returns (layout float CODONS len inc n sens cols replies) (fig, rest).
Proof.
  intros Hcols Hen. unfold layout.
  destruct (gridRows_ceiling (Z.of_nat (length sens)) cols Hcols ltac:(lia))
    as [_ Hb].
  destruct (placeAll_returns (gridRows (Z.of_nat (length sens)) cols) cols sens
              (dimensionalIterator (gridRows (Z.of_nat (length sens)) cols) cols)
              replies rest) as (ps & left & Hps); [|exact Hen|].
  { rewrite dimensionalIterator_cells, length_map, length_seq. nia. }
  eexists. eapply returns_bind; [exact Hps|]. apply returns_ret.
Qed.

End GridRuns.

(** ** The generator's contract *)

(** C1: for [length >= 1] and [0 <= errorCount <= length], on every tape of
    draws, a pair the generator produces has exactly [errorCount]
    mismatching residues; the sanity check of line 115 therefore passes
    (the checked generator does what the unchecked one does, and never
    raises [AssertionError]); and on a table with two residues and codons
    for each there are draws on which a pair is produced. *)
Theorem generated_mismatches_exact CODONS errorCount length t :
  1 <= length -> 0 <= errorCount <= length ->
  (forall p t', generatePair CODONS errorCount length t = Ret p t' ->
                List.length (subject p) = Z.to_nat length /\
                List.length (queryAa p) = Z.to_nat length /\
                mismatches (queryAa p) (subject p) = errorCount) /\
  generateChecked CODONS errorCount length t
  = generatePair CODONS errorCount length t /\
  (forall t', generateChecked CODONS errorCount length t
              <> Raise AssertionError t') /\
  (wellFormedTable CODONS = true ->
   exists p, returns (generateChecked CODONS errorCount length) p).
Proof.
  intros Hlen Hec. split; [|split; [|split]].
  - intros p t'. now apply generatePair_spec.
  - now apply generateChecked_eq.
  - intros t'. rewrite generateChecked_eq by exact Hec. intros H.
    now apply raises_only_generatePair in H.
  - intros Htable. now apply returns_generateChecked.
Qed.

Lemma generated_mismatches_exact_witness :
  (forall p t', generatePair codonsACD 2 4 tape0 = Ret p t' ->
                List.length (subject p) = 4%nat /\
                List.length (queryAa p) = 4%nat /\
                mismatches (queryAa p) (subject p) = 2) /\
  generateChecked codonsACD 2 4 tape0 = generatePair codonsACD 2 4 tape0 /\
  (forall t', generateChecked codonsACD 2 4 tape0 <> Raise AssertionError t') /\
  (wellFormedTable codonsACD = true ->
   exists p, returns (generateChecked codonsACD 2 4) p).
Proof.
  apply (generated_mismatches_exact codonsACD 2 4 tape0); lia.
Defined.

(** C9: for [length >= 1], on every tape of draws: with no mismatch asked
    for the query is the subject; with [length] mismatches asked for, the
    two have [length] residues and differ at every position.  On a table
    with two residues and codons for each, both cases have draws on which
    the pair is produced. *)
Theorem generated_extremes CODONS length t p t' :
  1 <= length ->
  (generatePair CODONS 0 length t = Ret p t' -> queryAa p = subject p) /\
  (generatePair CODONS length length t = Ret p t' ->
   List.length (subject p) = Z.to_nat length /\
   List.length (queryAa p) = Z.to_nat length /\
   forall i, (i < Z.to_nat length)%nat ->
             exists a b, queryAa p !! i = Some a /\ subject p !! i = Some b /\
                         a <> b) /\
  (wellFormedTable CODONS = true ->
   (exists p0, returns (generatePair CODONS 0 length) p0) /\
   (exists p1, returns (generatePair CODONS length length) p1)).
Proof.
  intros Hlen. split; [|split].
  - apply generatePair_identical.
  - intros H. apply generatePair_spec in H as (Hs & Hq & Hm); [|lia].
    split; [exact Hs|]. split; [exact Hq|]. intros i Hi.
    destruct (lookup_lt_is_Some_2 (queryAa p) i) as [a Ha]; [lia|].
    destruct (lookup_lt_is_Some_2 (subject p) i) as [b Hb]; [lia|].
    exists a, b. split; [exact Ha|]. split; [exact Hb|].
    apply (mismatches_full (queryAa p) (subject p)) with (i := i); auto.
    + congruence.
    + rewrite Hm, Hs. lia.
  - intros Htable. split; now apply returns_generatePair.
Qed.

Lemma generated_extremes_witness :
  (generatePair codonsACD 0 4 tape0 = Ret pairSame [2; 0; 1; 0; 1; 0]%nat /\
   queryAa pairSame = subject pairSame) /\
  (generatePair codonsACD 4 4 (tape0 ++ tape0) = Ret pairApart (0%nat :: tape0) /\
   forall i, (i < 4)%nat ->
             exists a b, queryAa pairApart !! i = Some a /\
                         subject pairApart !! i = Some b /\ a <> b).
Proof.
  split; (split; [vm_compute; reflexivity|]).
  - apply (generated_extremes codonsACD 4 tape0 pairSame [2; 0; 1; 0; 1; 0]%nat);
      [lia|vm_compute; reflexivity].
  - apply (generated_extremes codonsACD 4 (tape0 ++ tape0) pairApart
                              (0%nat :: tape0)); [lia|vm_compute; reflexivity].
Defined.

(** ** The adapter's contract *)

(** C3: once the pair is generated and checked and blastx has printed
    ASCII text: if nothing but white space was printed (no candidate
    score), [sampleBitScore] returns 0.0; if the lines read as the scores
    [b :: bs], it returns the first, [b], when [b] is at least every other
    score, and raises [AssertionError] when it is not. *)
Theorem sampleBitScore_first_or_zero float CODONS errorCount length out t p t1 :
  generateChecked CODONS errorCount length t = Ret p t1 ->
  isAscii out = true ->
  (rstrip out = EmptyString ->
   sampleBitScore float CODONS errorCount length (BlastxOutput out) t
   = Ret 0%Q t1) /\
  (forall b bs,
     rstrip out <> EmptyString ->
     map float (split_lines (rstrip out)) = map Some (b :: bs) ->
     (Forall (fun x => (x <= b)%Q) bs ->
      sampleBitScore float CODONS errorCount length (BlastxOutput out) t
      = Ret b t1) /\
     (~ Forall (fun x => (x <= b)%Q) bs ->
      sampleBitScore float CODONS errorCount length (BlastxOutput out) t
      = Raise AssertionError t1)).
Proof.
  intros Hgen Hasc.
  assert (Hs : sampleBitScore float CODONS errorCount length (BlastxOutput out) t
               = readScore float out t1).
  { unfold sampleBitScore. now rewrite (bind_Ret_eq _ _ _ _ _ Hgen). }
  rewrite Hs. split.
  - intros Hempty. now apply readScore_none.
  - intros b bs Hne Hmap. rewrite (readScore_some float out t1 b bs) by assumption.
    split; intros Hall.
    + apply forallb_Qle in Hall. now rewrite Hall.
    + destruct (forallb _ bs) eqn:Hb; [|reflexivity].
      now apply forallb_Qle in Hb.
Qed.

Lemma sampleBitScore_first_or_zero_witness :
  sampleBitScore readDecimal codonsACD 2 4 (BlastxOutput outSorted) tape0
  = Ret (524 # 10)%Q [1; 0; 1; 0]%nat /\
  sampleBitScore readDecimal codonsACD 2 4 (BlastxOutput outUnsorted) tape0
  = Raise AssertionError [1; 0; 1; 0]%nat /\
  sampleBitScore readDecimal codonsACD 2 4 (BlastxOutput outNone) tape0
  = Ret 0%Q [1; 0; 1; 0]%nat.
Proof.
  assert (Hgen : generateChecked codonsACD 2 4 tape0 = Ret pairTwo [1; 0; 1; 0]%nat)
    by (vm_compute; reflexivity).
  split; [|split].
  - destruct (sampleBitScore_first_or_zero readDecimal codonsACD 2 4 outSorted
                tape0 pairTwo _ Hgen eq_refl) as [_ H].
    destruct (H (524 # 10)%Q [(501 # 10)%Q]) as [Hok _];
      [vm_compute; discriminate | vm_compute; reflexivity |].
    apply Hok. repeat constructor. vm_compute. discriminate.
  - destruct (sampleBitScore_first_or_zero readDecimal codonsACD 2 4 outUnsorted
                tape0 pairTwo _ Hgen eq_refl) as [_ H].
    destruct (H (501 # 10)%Q [(524 # 10)%Q]) as [_ Hbad];
      [vm_compute; discriminate | vm_compute; reflexivity |].
    apply Hbad. intros Hall. apply Forall_cons in Hall as [Hle _].
    now vm_compute in Hle.
  - destruct (sampleBitScore_first_or_zero readDecimal codonsACD 2 4 outNone
                tape0 pairTwo _ Hgen eq_refl) as [H _].
    apply H. reflexivity.
Defined.

(** ** The sampler's contract *)

(** The sweep of the end-to-end scenario, run on [script] and [drawsAB]:
    the second trial times out and is repeated. *)
Example plot_example :
  plot readDecimal codonsACD true true false 10 5 3 script drawsAB
  = Ret (cellExample, []) (drop 218 drawsAB).
Proof. vm_compute. reflexivity. Qed.

(** C2: a trial that raises the time-out leaves the loop where it was:
    the same iteration counter, the same lists and counters; the loop goes
    on with the next reply and fresh draws.  So a run of the loop that
    returns has recorded exactly [iterations] trials at its level, however
    many time-outs there were: [iterations] values and colours more, the
    two counters of the level up by [iterations] together, and
    [errorCounts] untouched until line 237.  And the loop does return, on
    suitable draws, whenever the script holds [iterations] scoring replies,
    with any number of time-outs between them. *)
Theorem timeout_not_counted float CODONS e len n r replies i st t t1 :
  i < n ->
  sampleBitScore float CODONS e len r t = Raise TimeoutExpired t1 ->
  trials float CODONS e len n (r :: replies) i st t
  = trials float CODONS e len n replies i st t1 /\
  (forall replies0 t0 st' replies' t',
     0 <= n ->
     trials float CODONS e len n replies0 0 st t0 = Ret (st', replies') t' ->
     Z.of_nat (length (bitscores st')) = Z.of_nat (length (bitscores st)) + n /\
     Z.of_nat (length (color st')) = Z.of_nat (length (color st)) + n /\
     errorCounts st' = errorCounts st /\
     counterGet (successCounts st') e + counterGet (missCounts st') e
     = counterGet (successCounts st) e + counterGet (missCounts st) e + n) /\
  (wellFormedTable CODONS = true -> 0 <= e <= len ->
   forall replies0 rest,
     enough float (Z.to_nat n) replies0 rest ->
     exists st', returns (trials float CODONS e len n replies0 0 st) (st', rest)).
Proof.
  intros Hi Hs. split; [|split].
  - cbn [trials]. rewrite (proj2 (Z.ltb_lt i n) Hi), Hs. reflexivity.
  - intros replies0 t0 st' replies' t' Hn (ss & _ & Hlen & ->)%trials_scored.
    destruct (recordScores_spec e ss st) as (He & Hb & Hc & Hm & Hsu).
    cbn zeta in *. rewrite He, Hb, Hc, (Hm e), (Hsu e).
    rewrite !length_app, !length_fmap, !plotted_length.
    rewrite !decide_True by reflexivity.
    pose proof (hits_misses ss). repeat split; try reflexivity; lia.
  - intros Htable He replies0 rest Hen.
    apply trials_returns; [exact Htable|exact He|now rewrite Z.sub_0_r].
Qed.

Lemma timeout_not_counted_witness :
  trials readDecimal codonsACD 0 4 1 [BlastxTimeout; BlastxOutput outHit] 0
         noSamples drawsAB
  = trials readDecimal codonsACD 0 4 1 [BlastxOutput outHit] 0
           noSamples (drop 11 drawsAB).
Proof.
  apply (timeout_not_counted readDecimal codonsACD 0 4 1 BlastxTimeout
           [BlastxOutput outHit] 0 noSamples drawsAB (drop 11 drawsAB));
    [lia | vm_compute; reflexivity].
Defined.

(** C10: after a sweep over the levels of [range(0, length,
    errorIncrement)], every level visited has its two counters sum to
    [iterations] (the scores of the level are its hits and its misses, each
    trial in one of the two), and the three lists have one length. *)
Theorem counters_sum_to_iterations float CODONS len inc n levels replies t
        st replies' t' :
  1 <= inc -> 1 <= n ->
  Py.range 0 len inc = Some levels ->
  sweep float CODONS levels len n replies noSamples t = Ret (st, replies') t' ->
  (forall e, e ∈ levels ->
             counterGet (successCounts st) e + counterGet (missCounts st) e = n) /\
  length (errorCounts st) = length (bitscores st) /\
  length (bitscores st) = length (color st) /\
  exists trace,
    swept float CODONS len levels replies t trace replies' t' /\
    forall j e ss, levels !! j = Some e -> trace !! j = Some ss ->
                   counterGet (successCounts st) e = hits ss /\
                   counterGet (missCounts st) e = misses ss /\
                   hits ss + misses ss = n.
Proof.
  intros Hinc Hn Hr (trace & Hswept & Hrows & ->)%sweep_swept; [|lia].
  pose proof (swept_length _ _ _ _ _ _ _ _ _ Hswept) as Hlen.
  destruct (recordSweep_spec n levels trace noSamples Hlen
              (range_NoDup _ _ _ Hinc Hr) Hrows)
    as (He & Hb & Hc & Hout & Hin).
  { intros e _. apply counterGet_empty. }
  cbn zeta in *. cbn [noSamples errorCounts bitscores color app] in He, Hb, Hc.
  assert (Hcount : forall j e ss, levels !! j = Some e -> trace !! j = Some ss ->
            counterGet (successCounts (recordSweep n levels trace noSamples)) e
            = hits ss /\
            counterGet (missCounts (recordSweep n levels trace noSamples)) e
            = misses ss /\ hits ss + misses ss = n).
  { intros j e ss Hj Ht. destruct (Hin j e ss Hj Ht) as [-> ->].
    cbn [noSamples successCounts missCounts]. rewrite !counterGet_empty.
    rewrite hits_misses. rewrite Forall_forall in Hrows.
    split; [lia|]. split; [lia|]. apply Hrows.
    apply list_elem_of_lookup. eauto. }
  split; [|split; [|split]].
  - intros e [j Hj]%list_elem_of_lookup.
    destruct (lookup_lt_is_Some_2 trace j) as [ss Hss].
    { rewrite Hlen. eapply lookup_lt_Some, Hj. }
    destruct (Hcount j e ss Hj Hss) as (-> & -> & Hsum). exact Hsum.
  - now rewrite He, Hb, !length_fmap.
  - now rewrite Hb, Hc, !length_fmap.
  - exists trace. split; [exact Hswept|exact Hcount].
Qed.

Lemma counters_sum_to_iterations_witness :
  exists st replies' t',
    sweep readDecimal codonsACD [0; 5] 10 3 script noSamples drawsAB
    = Ret (st, replies') t' /\
    (forall e, e ∈ [0; 5] ->
               counterGet (successCounts st) e + counterGet (missCounts st) e = 3) /\
    length (errorCounts st) = length (bitscores st) /\
    length (bitscores st) = length (color st).
Proof.
  destruct (sweep readDecimal codonsACD [0; 5] 10 3 script noSamples drawsAB)
    as [[st replies'] t'| |] eqn:Hrun; [|vm_compute in Hrun; discriminate..].
  exists st, replies', t'. split; [reflexivity|].
  destruct (counters_sum_to_iterations readDecimal codonsACD 10 5 3 [0; 5]
              script drawsAB st replies' t') as (H1 & H2 & H3 & _);
    [lia | lia | reflexivity | exact Hrun |].
  auto.
Defined.

Section CellFacts.

Variable float : string -> option Q.
Variable CODONS : list (ascii * list string).

(** The outcomes of a returned cell are the table of its trace. *)
Lemma plot_outcomes bottom lhs rhs len inc n replies t c replies' t' :
  1 <= inc -> 1 <= n ->
  plot float CODONS bottom lhs rhs len inc n replies t = Ret (c, replies') t' ->
  exists levels trace,
    Py.range 0 len inc = Some levels /\ NoDup levels /\
    swept float CODONS len levels replies t trace replies' t' /\
    length trace = length levels /\
    Forall (fun ss => Z.of_nat (length ss) = n) trace /\
    outcomes c = table levels trace /\
    successX c = levels /\
    successY c = map (fun ss => (inject_Z (hits ss) / inject_Z n)%Q) trace.
Proof.
  intros Hinc Hn Hplot.
  destruct (plot_Ret float CODONS _ _ _ _ _ _ _ _ _ _ _ Hinc Hn Hplot)
    as (levels & trace & top & Hr & Hsw & Hrows & Hx & Hy & Hc & HsX & HsY & _).
  exists levels, trace.
  split; [exact Hr|]. split; [exact (range_NoDup _ _ _ Hinc Hr)|].
  split; [exact Hsw|]. split; [eapply swept_length; eassumption|].
  split; [exact Hrows|]. split; [|now split].
  unfold outcomes. rewrite Hx, Hy, Hc. apply zip_projections.
Qed.

End CellFacts.

(** C4: in the cell of one sweep, at every level [e], the plotted values
    of the misses (the trials whose score was 0.0, shown in the miss
    colour) are, in the order recorded, [-1 * zeroScale], [-2 * zeroScale],
    ...: the miss at position [k] (from 0) has the value
    [-(k + 1) * zeroScale], with [zeroScale = 2]; each is strictly below the
    one before it; and there are as many as trials of the level scored
    0.0. *)
Theorem misses_stack_downwards float CODONS bottom lhs rhs len inc n replies t
        c replies' t' :
  1 <= inc -> 1 <= n ->
  plot float CODONS bottom lhs rhs len inc n replies t = Ret (c, replies') t' ->
  zeroBitscoreScale = 2 /\
  (forall e k v,
     missValuesAt e c !! k = Some v ->
     v = inject_Z (- (Z.of_nat k + 1) * zeroBitscoreScale)) /\
  (forall e k v w,
     missValuesAt e c !! k = Some v -> missValuesAt e c !! (S k) = Some w ->
     (w < v)%Q) /\
  exists trace,
    swept float CODONS len (successX c) replies t trace replies' t' /\
    forall j e ss, successX c !! j = Some e -> trace !! j = Some ss ->
                   Z.of_nat (length (missValuesAt e c)) = misses ss.
Proof.
  intros Hinc Hn Hplot.
  destruct (plot_outcomes float CODONS _ _ _ _ _ _ _ _ _ _ _ Hinc Hn Hplot)
    as (levels & trace & Hr & Hnd & Hsw & Hlen & Hrows & Hout & HsX & _).
  assert (Hvals : forall e, exists m : nat,
            missValuesAt e c
            = map (fun k : nat => inject_Z (- (0 + Z.of_nat k) * zeroBitscoreScale))
                  (seq 1 m) /\
            forall j ss, levels !! j = Some e -> trace !! j = Some ss ->
                         Z.of_nat m = misses ss).
  { intros e. unfold missValuesAt. rewrite Hout.
    destruct (decide (e ∈ levels)) as [[j Hj]%list_elem_of_lookup|Hne].
    - destruct (lookup_lt_is_Some_2 trace j) as [ss Hss].
      { rewrite Hlen. eapply lookup_lt_Some, Hj. }
      exists (Z.to_nat (misses ss)).
      pose proof (table_filter_level (fun vc => vc.2 = missColor)
                    e levels trace j ss Hnd Hj Hss) as Hf.
      cbn beta in Hf. rewrite Hf. clear Hf.
      rewrite map_map. cbn [snd fst].
      change (map (fun x : Q * string => x.1) ?l) with (l.*1).
      rewrite plotted_misses. split; [reflexivity|].
      intros j' ss' Hj' Hss'.
      assert (j' = j) as -> by (eapply NoDup_lookup; eassumption).
      assert (ss' = ss) as -> by congruence.
      pose proof (misses_nonneg ss). lia.
    - exists 0%nat.
      pose proof (table_filter_absent (fun vc => vc.2 = missColor)
                    e levels trace Hne) as Hf.
      cbn beta in Hf. rewrite Hf. clear Hf.
      split; [reflexivity|]. intros j ss Hj _. exfalso. apply Hne.
      apply list_elem_of_lookup. eauto. }
  split; [reflexivity|]. split; [|split].
  - intros e k v Hk. destruct (Hvals e) as (m & Hm & _). rewrite Hm in Hk.
    rewrite list_lookup_fmap in Hk.
    destruct (seq 1 m !! k) as [i|] eqn:Hi; [|discriminate].
    apply lookup_seq in Hi as [-> _]. injection Hk as <-. f_equal. lia.
  - intros e k v w Hk Hk'. destruct (Hvals e) as (m & Hm & _).
    rewrite Hm in Hk, Hk'. rewrite list_lookup_fmap in Hk, Hk'.
    destruct (seq 1 m !! k) as [i|] eqn:Hi; [|discriminate].
    destruct (seq 1 m !! S k) as [i'|] eqn:Hi'; [|discriminate].
    apply lookup_seq in Hi as [-> _]. apply lookup_seq in Hi' as [-> _].
    injection Hk as <-. injection Hk' as <-.
    unfold Qlt, inject_Z, zeroBitscoreScale. cbn [Qnum Qden]. lia.
  - exists trace. rewrite HsX. split; [exact Hsw|].
    intros j e ss Hj Hss. destruct (Hvals e) as (m & Hm & Hcount).
    rewrite Hm, length_map, length_seq. eauto.
Qed.

Lemma misses_stack_downwards_witness :
  missValuesAt 0 cellExample = [inject_Z (-2); inject_Z (-4)] /\
  (forall e k v,
     missValuesAt e cellExample !! k = Some v ->
     v = inject_Z (- (Z.of_nat k + 1) * zeroBitscoreScale)).
Proof.
  split; [vm_compute; reflexivity|].
  apply (misses_stack_downwards readDecimal codonsACD true true false 10 5 3
           script drawsAB cellExample [] (drop 218 drawsAB));
    [lia | lia | vm_compute; reflexivity].
Defined.

(** C5: with [iterations >= 1] and an oracle whose scores are never
    negative (the scores of the data model), the match-rate point of every
    level [e] swept is the quotient [matches(e) / iterations], where
    [matches(e)] counts the trials shown at level [e] with a score above 0,
    and it lies between 0 and 1.  (The quotient is the exact one, of which
    Python's float is the nearest value.) *)
Theorem match_rate_exact float CODONS bottom lhs rhs len inc n replies t
        c replies' t' :
  1 <= inc -> 1 <= n ->
  Forall (nonNegative float) replies ->
  plot float CODONS bottom lhs rhs len inc n replies t = Ret (c, replies') t' ->
  length (successY c) = length (successX c) /\
  forall j e, successX c !! j = Some e ->
    exists y, successY c !! j = Some y /\
              y = (inject_Z (matchesAt e c) / inject_Z n)%Q /\
              (0 <= y)%Q /\ (y <= 1)%Q.
Proof.
  intros Hinc Hn Hnn Hplot.
  destruct (plot_outcomes float CODONS _ _ _ _ _ _ _ _ _ _ _ Hinc Hn Hplot)
    as (levels & trace & Hr & Hnd & Hsw & Hlen & Hrows & Hout & HsX & HsY).
  rewrite HsX, HsY, length_map. split; [exact Hlen|].
  intros j e Hj.
  destruct (lookup_lt_is_Some_2 trace j) as [ss Hss].
  { rewrite Hlen. eapply lookup_lt_Some, Hj. }
  assert (Hm : matchesAt e c = hits ss).
  { unfold matchesAt. rewrite Hout.
    pose proof (table_filter_level (fun vc => (0 < vc.1)%Q)
                  e levels trace j ss Hnd Hj Hss) as Hf.
    cbn beta in Hf. rewrite Hf, length_map. clear Hf.
    apply plotted_positive; [lia|].
    pose proof (swept_nonNegative _ _ _ _ _ _ _ _ _ Hnn Hsw) as Hall.
    rewrite Forall_forall in Hall. apply Hall.
    apply list_elem_of_lookup. eauto. }
  exists (inject_Z (hits ss) / inject_Z n)%Q.
  rewrite list_lookup_fmap, Hss, Hm. split; [reflexivity|]. split; [reflexivity|].
  apply rate_bounds; [|exact Hn].
  pose proof (hits_nonneg ss). pose proof (misses_nonneg ss).
  pose proof (hits_misses ss). rewrite Forall_forall in Hrows.
  assert (Z.of_nat (length ss) = n) by (apply Hrows, list_elem_of_lookup; eauto).
  lia.
Qed.

Lemma script_nonNegative : Forall (nonNegative readDecimal) script.
Proof.
  repeat constructor; intros out t s t' [= <-];
    vm_compute; intros [= <- _]; discriminate.
Qed.

Lemma match_rate_exact_witness :
  matchesAt 0 cellExample = 1 /\ matchesAt 5 cellExample = 2 /\
  forall j e, successX cellExample !! j = Some e ->
    exists y, successY cellExample !! j = Some y /\
              y = (inject_Z (matchesAt e cellExample) / inject_Z 3)%Q /\
              (0 <= y)%Q /\ (y <= 1)%Q.
Proof.
  split; [vm_compute; reflexivity|]. split; [vm_compute; reflexivity|].
  apply (match_rate_exact readDecimal codonsACD true true false 10 5 3
           script drawsAB cellExample [] (drop 218 drawsAB));
    [lia | lia | exact script_nonNegative | vm_compute; reflexivity].
Defined.

(** C6: for [length >= 1], [errorIncrement >= 1] and [iterations >= 1], a
    sweep that returns has visited exactly the mismatch counts 0,
    [errorIncrement], [2 * errorIncrement], ... below [length], each
    [iterations] times in a row; the sample set holds
    [numLevels * iterations] outcomes and the match-rate series one point
    per level.  And the sweep does return, on suitable draws, whenever the
    script holds [numLevels * iterations] scoring replies. *)
Theorem sweep_levels_and_sizes float CODONS bottom lhs rhs len inc n replies t
        c replies' t' :
  1 <= len -> 1 <= inc -> 1 <= n ->
  plot float CODONS bottom lhs rhs len inc n replies t = Ret (c, replies') t' ->
  let numLevels := (len - 1) / inc + 1 in
  successX c = map (fun k : nat => Z.of_nat k * inc) (seq 0 (Z.to_nat numLevels)) /\
  (forall e, e ∈ successX c <-> exists k, 0 <= k /\ e = k * inc /\ e < len) /\
  scatterX c = flat_map (replicate (Z.to_nat n)) (successX c) /\
  Z.of_nat (length (outcomes c)) = numLevels * n /\
  Z.of_nat (length (scatterX c)) = numLevels * n /\
  Z.of_nat (length (scatterY c)) = numLevels * n /\
  Z.of_nat (length (scatterColor c)) = numLevels * n /\
  Z.of_nat (length (successX c)) = numLevels /\
  Z.of_nat (length (successY c)) = numLevels /\
  (wellFormedTable CODONS = true ->
   forall replies0 rest,
     enough float (Z.to_nat (numLevels * n)) replies0 rest ->
     exists c0,
       returns (plot float CODONS bottom lhs rhs len inc n replies0) (c0, rest)).
Proof.
  intros Hlen1 Hinc Hn Hplot numLevels.
  destruct (plot_Ret float CODONS _ _ _ _ _ _ _ _ _ _ _ Hinc Hn Hplot)
    as (levels & trace & top & Hr & Hsw & Hrows & Hx & Hy & Hc & HsX & HsY & _).
  pose proof (swept_length _ _ _ _ _ _ _ _ _ Hsw) as Hlen.
  pose proof (table_length n levels trace Hlen Hrows) as Htab.
  assert (Hnum : Py.range_len 0 len inc = numLevels).
  { unfold Py.range_len, numLevels.
    rewrite (proj2 (Z.ltb_lt 0 inc)), (proj2 (Z.ltb_lt 0 len)) by lia.
    now rewrite Z.sub_0_r. }
  assert (Hnl : Z.of_nat (length levels) = numLevels).
  { rewrite (range_levels _ _ _ Hinc Hr), length_map, length_seq, Hnum.
    assert (0 <= (len - 1) / inc) by (apply Z.div_pos; lia).
    unfold numLevels. lia. }
  unfold outcomes. rewrite Hx, Hy, Hc, HsX, HsY, zip_projections.
  rewrite ?length_fmap, ?length_map, ?Hlen, Htab, Hnl.
  split; [rewrite <- Hnum; exact (range_levels _ _ _ Hinc Hr)|].
  split; [intros e; exact (range_elem _ _ _ e Hinc Hr)|].
  split; [exact (table_fst n levels trace Hlen Hrows)|].
  do 6 (split; [reflexivity|]).
  intros Htable replies0 rest Hen. now apply plot_returns.
Qed.

Lemma sweep_levels_and_sizes_witness :
  successX cellExample = [0; 5] /\
  Z.of_nat (length (outcomes cellExample)) = 6 /\
  Z.of_nat (length (successY cellExample)) = 2.
Proof.
  destruct (sweep_levels_and_sizes readDecimal codonsACD true true false 10 5 3
              script drawsAB cellExample [] (drop 218 drawsAB))
    as (HX & _ & _ & Hout & _ & _ & _ & _ & HY & _);
    [lia | lia | lia | vm_compute; reflexivity |].
  split; [exact HX|]. split; [exact Hout|exact HY].
Defined.

(** C8: the horizontal axis runs from 0 to [length + 1], the vertical one
    from [-(iterations + 1) * zeroScale] to the greatest plotted value
    plus 5.  Every miss is plotted at [-k * zeroScale] for a [k] from 1 to
    [iterations], strictly above the lower bound, and every plotted value
    lies strictly below the upper bound. *)
Theorem axis_bounds float CODONS bottom lhs rhs len inc n replies t
        c replies' t' :
  1 <= inc -> 1 <= n ->
  plot float CODONS bottom lhs rhs len inc n replies t = Ret (c, replies') t' ->
  xlim c = (0, inject_Z (len + 1))%Q /\
  (ylim c).1 = inject_Z (- (n + 1) * zeroBitscoreScale) /\
  (exists top, top ∈ scatterY c /\ (forall v, v ∈ scatterY c -> (v <= top)%Q) /\
               (ylim c).2 = (top + 5)%Q) /\
  (forall i v, scatterColor c !! i = Some missColor -> scatterY c !! i = Some v ->
               (exists k, 1 <= k <= n /\ v = inject_Z (- k * zeroBitscoreScale)) /\
               ((ylim c).1 < v)%Q) /\
  (forall v, v ∈ scatterY c -> (v < (ylim c).2)%Q).
Proof.
  intros Hinc Hn Hplot.
  destruct (plot_Ret float CODONS _ _ _ _ _ _ _ _ _ _ _ Hinc Hn Hplot)
    as (levels & trace & top & Hr & Hsw & Hrows & Hx & Hy & Hc & HsX & HsY
        & _ & _ & _ & Hxlim & Hylim & Htop & Hall).
  rewrite Hxlim, Hylim. cbn [fst snd].
  split; [reflexivity|]. split; [reflexivity|]. split; [|split].
  - exists top. auto.
  - intros i v Hci Hvi. rewrite Hc in Hci. rewrite Hy in Hvi.
    rewrite list_lookup_fmap in Hci. rewrite list_lookup_fmap in Hvi.
    destruct ((table levels trace).*2 !! i) as [[v0 c0]|] eqn:Hi; [|discriminate].
    cbn in Hci, Hvi. injection Hci as ->. injection Hvi as ->.
    assert (Hin : (v, missColor) ∈ (table levels trace).*2)
      by (apply list_elem_of_lookup; eauto).
    apply table_snd_elem in Hin as (ss & Hss & Hin).
    apply plotted_miss_bound in Hin as (k & Hk & ->).
    rewrite Forall_forall in Hrows. specialize (Hrows ss Hss).
    split; [exists k; split; [lia|reflexivity]|].
    unfold Qlt, inject_Z, zeroBitscoreScale. cbn [Qnum Qden]. lia.
  - intros v Hv. apply Qle_lt_trans with (y := top); [now apply Hall|].
    rewrite <- (Qplus_0_r top) at 1. apply Qplus_lt_r. reflexivity.
Qed.

Lemma axis_bounds_witness :
  xlim cellExample = (0, inject_Z 11)%Q /\
  (ylim cellExample).1 = inject_Z (-8) /\
  (forall v, v ∈ scatterY cellExample -> (v < (ylim cellExample).2)%Q).
Proof.
  destruct (axis_bounds readDecimal codonsACD true true false 10 5 3
              script drawsAB cellExample [] (drop 218 drawsAB))
    as (Hx & Hy & _ & _ & Hup);
    [lia | lia | vm_compute; reflexivity |].
  split; [exact Hx|]. split; [exact Hy|exact Hup].
Defined.

(** ** The grid's contract *)

(** C7: for [count] configurations and [cols >= 1] columns, the grid has
    [ceil(count / cols)] rows; the configuration of index [i], in the
    order given, is placed at row [i // cols], column [i % cols]; and the
    cells switched off afterwards are the [rows * cols - count] cells that
    follow the last one placed.  (The cursor is the one the spec
    describes.)  And the figure is laid out, on suitable draws, whenever
    the script holds the scoring replies of every subplot. *)
Theorem grid_placement float CODONS length inc n sens cols replies t
        fig replies' t' :
  1 <= cols ->
  layout float CODONS length inc n sens cols replies t = Ret (fig, replies') t' ->
  let count := Z.of_nat (List.length sens) in
  let rows := gridRows count cols in
  rows = (count + cols - 1) / cols /\
  (rows - 1) * cols < count <= rows * cols /\
  Z.of_nat (List.length (subplots fig)) = count /\
  (forall i p, subplots fig !! i = Some p ->
               row p = Z.of_nat i / cols /\ col p = Z.of_nat i mod cols /\
               sens !! i = Some (sensitivity p)) /\
  Z.of_nat (List.length (switchedOff fig)) = rows * cols - count /\
  (forall k rc, switchedOff fig !! k = Some rc ->
                rc = cellAt cols (List.length sens + k)) /\
  (wellFormedTable CODONS = true -> 1 <= length -> 1 <= inc -> 1 <= n ->
   forall replies0 rest,
     enough float (List.length sens * Z.to_nat (((length - 1) / inc + 1) * n))
            replies0 rest ->
     exists fig0,
       returns (layout float CODONS length inc n sens cols replies0) (fig0, rest)).
Proof.
  intros Hcols Hrun count rows.
  destruct (gridRows_ceiling count cols Hcols ltac:(lia)) as [Hceil Hbounds].
  fold rows in Hceil, Hbounds.
  unfold layout in Hrun. fold count rows in Hrun.
  apply bind_Ret_inv in Hrun as ([[ps left] r1] & t1 & Hplace & [= <- <- <-]).
  cbn [fst snd subplots switchedOff].
  apply placeAll_cells in Hplace as (Hps & Hleft & Hsens & Hlen).
  rewrite dimensionalIterator_cells in Hps, Hleft, Hlen.
  set (N := (Z.to_nat rows * Z.to_nat cols)%nat) in *.
  rewrite length_map, length_seq in Hlen.
  assert (HN : Z.of_nat N = rows * cols) by (unfold N; nia).
  change (map (cellAt cols) ?l) with (cellAt cols <$> l) in Hps, Hleft.
  rewrite <- fmap_take, take_seq, Nat.min_l in Hps by exact Hlen.
  rewrite <- fmap_drop, drop_seq in Hleft. cbn [plus] in Hleft.
  split; [exact Hceil|]. split; [exact Hbounds|].
  split; [|split; [|split; [|split]]].
  - unfold count. rewrite <- Hsens. now rewrite length_map.
  - intros i p Hi.
    assert (Hcell : (map (fun p => (row p, col p)) ps) !! i = Some (row p, col p)).
    { change (map ?f ps) with (f <$> ps). now rewrite list_lookup_fmap, Hi. }
    rewrite Hps, list_lookup_fmap in Hcell.
    destruct (seq 0 (List.length sens) !! i) as [k|] eqn:Hk; [|discriminate].
    apply lookup_seq in Hk as [-> _]. injection Hcell as Hrow Hcol.
    cbn [plus] in Hrow, Hcol. split; [now rewrite <- Hrow|].
    split; [now rewrite <- Hcol|].
    rewrite <- Hsens. change (map ?f ps) with (f <$> ps).
    now rewrite list_lookup_fmap, Hi.
  - rewrite Hleft, length_fmap, length_seq. unfold count. lia.
  - intros k rc Hk. rewrite Hleft, list_lookup_fmap in Hk.
    destruct (seq (List.length sens) (N - List.length sens) !! k) as [j|] eqn:Hj;
      [|discriminate].
    apply lookup_seq in Hj as [-> _]. now injection Hk as <-.
  - intros Htable Hl Hi Hn replies0 rest Hen. now apply layout_returns.
Qed.

Lemma grid_placement_witness :
  exists fig replies' t',
    main readDecimal codonsACD 4 2 1 (replicate 16 (BlastxOutput outHit))
         (drawsAB ++ drawsAB) = Ret (fig, replies') t' /\
    gridRows 8 cols = 3 /\
    Z.of_nat (List.length (subplots fig)) = 8 /\
    Z.of_nat (List.length (switchedOff fig)) = 1 /\
    (forall k rc, switchedOff fig !! k = Some rc -> rc = cellAt 3 (8 + k)).
Proof.
  destruct (main readDecimal codonsACD 4 2 1 (replicate 16 (BlastxOutput outHit))
                 (drawsAB ++ drawsAB))
    as [[fig replies'] t'| |] eqn:Hrun; [|vm_compute in Hrun; discriminate..].
  exists fig, replies', t'. split; [reflexivity|]. split; [reflexivity|].
  destruct (grid_placement readDecimal codonsACD 4 2 1 sensitivities cols
              (replicate 16 (BlastxOutput outHit)) (drawsAB ++ drawsAB)
              fig replies' t') as (_ & _ & Hn & _ & Hoff & Hcells & _);
    [unfold cols; lia | exact Hrun |].
  split; [exact Hn|]. split; [exact Hoff|exact Hcells].
Defined.

(** * Further properties of the code *)

(** ** The generator at its edges *)

Lemma slice_to_length {A} k (l : list A) :
  length (Py.slice_to k l)
  = if k <? 0 then Nat.min (Z.to_nat (Z.of_nat (length l) + k)) (length l)
    else Nat.min (Z.to_nat k) (length l).
Proof. unfold Py.slice_to. destruct (k <? 0); apply length_take. Qed.

Lemma slice_to_sublist {A} k (l : list A) : Py.slice_to k l `sublist_of` l.
Proof. unfold Py.slice_to. destruct (k <? 0); apply sublist_take. Qed.

Section GeneratorEdges.

Variable CODONS : list (ascii * list string).

(** Whatever [errorCount] is, a pair that is produced differs from its
    subject at as many positions as [indices[:errorCount]] has entries. *)
Lemma generatePair_count errorCount length t p t' :
  generatePair CODONS errorCount length t = Ret p t' ->
  mismatches (queryAa p) (subject p)
  = Z.of_nat (List.length (Py.slice_to errorCount (Py.range_nat length))).
Proof.
  unfold generatePair.
  intros (sbj & t1 & Hsbj & H)%bind_Ret_inv.
  apply bind_Ret_inv in H as (ix & t2 & Hsh & H).
  apply bind_Ret_inv in H as (q & t3 & Hmut & H).
  apply bind_Ret_inv in H as (dna & t4 & _ & [= <- _]).
  cbn [subject queryAa]. apply shuffle_perm in Hsh.
  apply mutate_spec in Hmut as (_ & Hmis & _); auto.
  - assert (Hl : List.length ix = List.length (Py.range_nat length))
      by now rewrite Hsh.
    rewrite Hmis, mismatches_same, !slice_to_length, Hl. reflexivity.
  - eapply sublist_NoDup; [|apply slice_to_sublist].
    rewrite Hsh. apply NoDup_seq.
Qed.

(** X1: with [length >= 0] and an [errorCount] below 0 or above [length],
    a pair that is produced has another number of mismatches, and the
    sanity check of line 115 stops [sampleBitScore] with [AssertionError],
    before DIAMOND is run. *)
Theorem errorCount_out_of_range float errorCount length r t p t' :
  0 <= length -> errorCount < 0 \/ length < errorCount ->
  generatePair CODONS errorCount length t = Ret p t' ->
  mismatches (queryAa p) (subject p) <> errorCount /\
  generateChecked CODONS errorCount length t = Raise AssertionError t' /\
  sampleBitScore float CODONS errorCount length r t = Raise AssertionError t'.
Proof.
  intros Hlen Hec Hp.
  assert (Hne : mismatches (queryAa p) (subject p) <> errorCount).
  { rewrite (generatePair_count _ _ _ _ _ Hp), slice_to_length.
    unfold Py.range_nat. rewrite length_seq.
    destruct (errorCount <? 0) eqn:Hz; [apply Z.ltb_lt in Hz|apply Z.ltb_ge in Hz];
      lia. }
  assert (Hchk : generateChecked CODONS errorCount length t
                 = Raise AssertionError t').
  { unfold generateChecked. rewrite (bind_Ret_eq _ _ _ _ _ Hp).
    unfold assert. rewrite bool_decide_eq_false_2 by congruence. reflexivity. }
  split; [exact Hne|]. split; [exact Hchk|].
  unfold sampleBitScore, bind. now rewrite Hchk.
Qed.

(** X2: with no residue in the table and [length >= 1], the generator
    raises [IndexError] at its first draw, reading nothing of the tape. *)
Theorem empty_table_IndexError errorCount length t :
  aas CODONS = [] -> 1 <= length ->
  generatePair CODONS errorCount length t = Raise IndexError t.
Proof.
  intros Haas Hlen. unfold generatePair. rewrite Haas.
  destruct (Z.to_nat length) as [|n] eqn:Hn; [lia|]. reflexivity.
Qed.

(** The redraw loop on a table of one residue reads the tape to its end. *)
Lemma redraw_single a t : aas CODONS = [a] -> redraw CODONS a a t = Starved.
Proof.
  intros Haas. induction t as [|r t IH]; cbn [redraw];
    rewrite bool_decide_eq_true_2 by reflexivity; rewrite Haas; [reflexivity|].
  cbn [List.length]. rewrite Nat.mod_1_r. exact IH.
Qed.

Lemma choice_single (a : ascii) r t : Py.choice [a] (r :: t) = Ret a t.
Proof.
  unfold Py.choice, bind, Py.randbelow. cbn [List.length].
  now rewrite Nat.mod_1_r.
Qed.

Lemma repeatM_choice_single (a : ascii) n t :
  Py.repeatM n (Py.choice [a]) t = Starved \/
  exists t', Py.repeatM n (Py.choice [a]) t = Ret (replicate n a) t'.
Proof.
  revert t. induction n as [|n IH]; intros t; cbn [Py.repeatM replicate].
  - right. now exists t.
  - destruct t as [|r t]; [now left|].
    rewrite (bind_Ret_eq _ _ _ _ _ (choice_single a r t)).
    unfold bind.
    destruct (IH t) as [->|(t' & ->)]; [now left|right]. now exists t'.
Qed.

(** X3: with a single residue in the table, [length >= 1] and at least one
    mismatch asked for, the generator returns on no tape and raises
    nothing: the redraw loop of lines 108-109 never finds another residue. *)
Theorem single_residue_never_returns a errorCount length t :
  aas CODONS = [a] -> 1 <= length -> 1 <= errorCount ->
  generatePair CODONS errorCount length t = Starved.
Proof.
  intros Haas Hlen Hec. unfold generatePair. rewrite Haas.
  unfold bind at 1.
  destruct (repeatM_choice_single a (Z.to_nat length) t) as [->|(t1 & ->)];
    [reflexivity|].
  unfold bind at 1.
  destruct (Py.shuffle (Py.range_nat length) t1) as [ix t2|e t2|] eqn:Hsh;
    [|now apply raises_only_shuffle_from with (P := fun _ => False) in Hsh
     |reflexivity].
  apply shuffle_perm in Hsh.
  assert (Hix : List.length ix = Z.to_nat length).
  { rewrite Hsh. unfold Py.range_nat. apply length_seq. }
  rewrite slice_to_take by lia.
  destruct ix as [|i ix]; [cbn in Hix; lia|].
  destruct (Z.to_nat errorCount) as [|k] eqn:Hk; [lia|]. cbn [take].
  assert (Hi : (i < Z.to_nat length)%nat).
  { assert (Hin : i ∈ Py.range_nat length) by (rewrite <- Hsh; left).
    unfold Py.range_nat in Hin. apply elem_of_seq in Hin. lia. }
  unfold bind at 1. cbn [mutate].
  rewrite lookup_replicate_2 by exact Hi.
  unfold bind at 1. now rewrite redraw_single.
Qed.

End GeneratorEdges.

Lemma errorCount_out_of_range_witness :
  exists p t',
    generatePair codonsACD 5 4 drawsAB = Ret p t' /\
    sampleBitScore readDecimal codonsACD 5 4 (BlastxOutput outHit) drawsAB
    = Raise AssertionError t'.
Proof.
  destruct (generatePair codonsACD 5 4 drawsAB) as [p t'| |] eqn:Hp;
    [|vm_compute in Hp; discriminate..].
  exists p, t'. split; [reflexivity|].
  apply (errorCount_out_of_range codonsACD readDecimal 5 4 (BlastxOutput outHit)
           drawsAB p t'); [lia | right; lia | exact Hp].
Defined.

Lemma empty_table_IndexError_witness :
  generatePair [] 2 4 tape0 = Raise IndexError tape0.
Proof. apply (empty_table_IndexError [] 2 4 tape0); [reflexivity|lia]. Defined.

Lemma single_residue_never_returns_witness :
  generatePair [("A"%char, ["GCT"%string])] 1 4 drawsAB = Starved.
Proof.
  apply (single_residue_never_returns [("A"%char, ["GCT"%string])] "A"%char
           1 4 drawsAB); [reflexivity|lia|lia].
Defined.

(** ** What the generated sequences are made of *)

Lemma nth_mod_elem {A} (l : list A) r d :
  l <> [] -> nth (r mod List.length l)%nat l d ∈ l.
Proof.
  intros Hl. apply list_elem_of_In, nth_In, Nat.mod_upper_bound.
  destruct l; [congruence|discriminate].
Qed.

Lemma choice_Ret_elem {A} (seq : list A) t a t' :
  Py.choice seq t = Ret a t' -> a ∈ seq.
Proof.
  destruct seq as [|a0 seq]; [discriminate|]. cbn [Py.choice].
  intros (i & t1 & Hi & [= <- _])%bind_Ret_inv.
  destruct t as [|r t]; [discriminate|]. injection Hi as <- _.
  apply (nth_mod_elem (a0 :: seq) r a0). discriminate.
Qed.

Lemma repeatM_Forall {A} (P : A -> Prop) n (m : M A) :
  (forall t a t', m t = Ret a t' -> P a) ->
  forall t l t', Py.repeatM n m t = Ret l t' -> Forall P l.
Proof.
  intros Hm. induction n as [|n IH]; intros t l t'; cbn [Py.repeatM].
  - intros [= <- _]. constructor.
  - intros (a & t1 & Ha & (l1 & t2 & Hl & [= <- _])%bind_Ret_inv)%bind_Ret_inv.
    constructor; eauto.
Qed.

Lemma mapM_Forall2 {A B} (R : A -> B -> Prop) (f : A -> M B) :
  (forall a t b t', f a t = Ret b t' -> R a b) ->
  forall l t bs t', Py.mapM f l t = Ret bs t' -> Forall2 R l bs.
Proof.
  intros Hf. induction l as [|a l IH]; intros t bs t'; cbn [Py.mapM].
  - intros [= <- _]. constructor.
  - intros (b & t1 & Hb & (bs1 & t2 & Hl & [= <- _])%bind_Ret_inv)%bind_Ret_inv.
    constructor; eauto.
Qed.

Lemma string_length_app (s1 s2 : string) :
  String.length (String.append s1 s2)
  = (String.length s1 + String.length s2)%nat.
Proof. induction s1 as [|c s1 IH]; simpl; [reflexivity|now f_equal]. Qed.

Lemma concat_triplets (codons : list string) :
  Forall (fun c => String.length c = 3%nat) codons ->
  String.length (String.concat "" codons) = (3 * List.length codons)%nat.
Proof.
  induction 1 as [|c codons Hc _ IH]; [reflexivity|].
  cbn [String.concat]. destruct codons as [|c' codons].
  - cbn. lia.
  - rewrite !string_length_app, IH. cbn. lia.
Qed.

Section Sequences.

Variable CODONS : list (ascii * list string).

Lemma redraw_Ret_elem e a0 t a t' :
  redraw CODONS e a0 t = Ret a t' -> a = a0 \/ a ∈ aas CODONS.
Proof.
  revert a0. induction t as [|r t IH]; intros a0; cbn [redraw];
    case_bool_decide; try (intros [= <- _]; now left);
    destruct (aas CODONS) as [|b l] eqn:Haas; try discriminate.
  intros [->|Hin]%IH; right; [|exact Hin].
  apply (nth_mod_elem (b :: l) r b). discriminate.
Qed.

Lemma mutate_Forall sbj indices : forall q t q' t',
  Forall (fun c => c ∈ aas CODONS) q ->
  mutate CODONS sbj indices q t = Ret q' t' ->
  Forall (fun c => c ∈ aas CODONS) q'.
Proof.
  induction indices as [|i indices IH]; intros q t q' t' Hq; cbn [mutate].
  - now intros [= <- _].
  - destruct (sbj !! i) as [e|] eqn:Hi; [|discriminate].
    intros (a & t1 & Hre & Hmut)%bind_Ret_inv.
    eapply IH; [|exact Hmut]. apply Forall_insert; [exact Hq|].
    pose proof (redraw_Ret _ _ _ _ _ _ Hre) as Hne.
    apply redraw_Ret_elem in Hre as [->|Hin]; [contradiction|exact Hin].
Qed.

Lemma codonsOf_triplets aa c :
  tripletTable CODONS = true -> c ∈ codonsOf CODONS aa ->
  String.length c = 3%nat.
Proof.
  unfold tripletTable, codonsOf. rewrite forallb_forall. intros Htab Hc.
  destruct (list_find _ CODONS) as [[i [k cs]]|] eqn:Hf; [|inversion Hc].
  apply list_find_Some in Hf as (Hi & _ & _).
  assert (Hin : In (k, cs) CODONS)
    by (apply list_elem_of_In, list_elem_of_lookup; eauto).
  apply Htab in Hin. cbn in Hin. rewrite forallb_forall in Hin.
  apply Nat.eqb_eq, Hin, list_elem_of_In, Hc.
Qed.

(** X4: whatever the draws, in a pair the generator produces the subject
    and the query consist of residues of the table, and the query's DNA is
    one codon of each query residue, taken from that residue's entry and
    joined in order; on a table of triplets it has [3 * length]
    characters. *)
Theorem query_is_transcribed errorCount length t p t' :
  0 <= length ->
  generatePair CODONS errorCount length t = Ret p t' ->
  Forall (fun c => c ∈ aas CODONS) (subject p) /\
  Forall (fun c => c ∈ aas CODONS) (queryAa p) /\
  (exists codons,
     Forall2 (fun aa c => c ∈ codonsOf CODONS aa) (queryAa p) codons /\
     queryDNA p = String.concat "" codons) /\
  (tripletTable CODONS = true ->
   Z.of_nat (String.length (queryDNA p)) = 3 * length).
Proof.
  intros Hlen Hp. pose proof Hp as Hrun. unfold generatePair in Hp.
  apply bind_Ret_inv in Hp as (sbj & t1 & Hsbj & H).
  apply bind_Ret_inv in H as (ix & t2 & Hsh & H).
  apply bind_Ret_inv in H as (q & t3 & Hmut & H).
  apply bind_Ret_inv in H as (dna & t4 & Hdna & [= <- _]).
  cbn [subject queryAa queryDNA].
  assert (Hs : Forall (fun c => c ∈ aas CODONS) sbj).
  { eapply repeatM_Forall; [|exact Hsbj]. intros t0 a t0'. apply choice_Ret_elem. }
  assert (Hq : Forall (fun c => c ∈ aas CODONS) q)
    by (eapply mutate_Forall; eassumption).
  assert (Hc : Forall2 (fun aa c => c ∈ codonsOf CODONS aa) q dna).
  { eapply mapM_Forall2; [|exact Hdna]. intros a t0 b t0'. apply choice_Ret_elem. }
  split; [exact Hs|]. split; [exact Hq|]. split; [eauto|].
  intros Htab. rewrite concat_triplets.
  - rewrite <- (Forall2_length _ _ _ Hc).
    apply repeatM_length in Hsbj. apply shuffle_perm in Hsh.
    apply mutate_spec in Hmut as (Hql & _).
    + rewrite Hql, Hsbj. lia.
    + eapply sublist_NoDup; [|apply slice_to_sublist].
      rewrite Hsh. apply NoDup_seq.
    + reflexivity.
    + reflexivity.
  - apply Forall_forall. intros c Hin.
    apply list_elem_of_lookup in Hin as [i Hi].
    destruct (Forall2_lookup_r _ _ _ _ _ Hc Hi) as (aa & _ & Hcod).
    eapply codonsOf_triplets; eassumption.
Qed.

End Sequences.

Lemma query_is_transcribed_witness :
  Forall (fun c => c ∈ aas codonsACD) (queryAa pairTwo) /\
  Z.of_nat (String.length (queryDNA pairTwo)) = 3 * 4.
Proof.
  destruct (query_is_transcribed codonsACD 2 4 tape0 pairTwo [1; 0; 1; 0]%nat)
    as (_ & Hq & _ & Hlen); [lia | vm_compute; reflexivity |].
  split; [exact Hq|]. apply Hlen. reflexivity.
Defined.

(** ** Which exceptions leave the sampler *)

Lemma raises_only_weaken {A} (P Q : exn -> Prop) (m : M A) :
  (forall e, P e -> Q e) -> raises_only P m -> raises_only Q m.
Proof. intros HPQ Hm t e t' H. eauto. Qed.

Lemma raises_only_assert P b : P AssertionError -> raises_only P (assert b).
Proof.
  intros HP. destruct b; [apply raises_only_ret|now apply raises_only_raise].
Qed.

(** What a sweep lets through: neither the time-out, which it absorbs,
    nor the end of an iteration, which it never meets. *)
Definition escapes (e : exn) : Prop := e <> TimeoutExpired /\ e <> StopIteration.

Section Errors.

Variable float : string -> option Q.
Variable CODONS : list (ascii * list string).

Lemma raises_only_generateChecked errorCount length :
  raises_only escapes (generateChecked CODONS errorCount length).
Proof.
  unfold generateChecked. apply raises_only_bind.
  - eapply raises_only_weaken; [|apply raises_only_generatePair].
    intros e ->. split; discriminate.
  - intros p. apply raises_only_bind; [|intros; apply raises_only_ret].
    apply raises_only_assert. split; discriminate.
Qed.

Lemma raises_only_readScore out : raises_only escapes (readScore float out).
Proof.
  unfold readScore. apply raises_only_bind.
  - unfold decode_ascii. destruct (isAscii out);
      [apply raises_only_ret|apply raises_only_raise; split; discriminate].
  - intros text. case_bool_decide; [apply raises_only_ret|].
    apply raises_only_bind.
    + unfold floats. apply raises_only_mapM. intros line.
      destruct (float line);
        [apply raises_only_ret|apply raises_only_raise; split; discriminate].
    + intros [|b bs]; [apply raises_only_raise; split; discriminate|].
      apply raises_only_bind; [|intros; apply raises_only_ret].
      apply raises_only_assert. split; discriminate.
Qed.

(** A trial raises the time-out only on a reply that is one. *)
Lemma sampleBitScore_Raise e len r t x t' :
  sampleBitScore float CODONS e len r t = Raise x t' ->
  x <> StopIteration /\ (x = TimeoutExpired -> r = BlastxTimeout).
Proof.
  unfold sampleBitScore.
  intros [H|(p & t1 & _ & H)]%bind_Raise_inv.
  - apply raises_only_generateChecked in H as [Ht Hs]. split; [exact Hs|].
    intros ->. contradiction.
  - destruct r as [| | |out].
    + injection H as <- _. split; discriminate.
    + injection H as <- _. split; discriminate.
    + injection H as <- _. split; [discriminate|reflexivity].
    + apply raises_only_readScore in H as [Ht Hs]. split; [exact Hs|].
      intros ->. contradiction.
Qed.

Lemma raises_only_trials e len n replies : forall i st,
  raises_only escapes (trials float CODONS e len n replies i st).
Proof.
  induction replies as [|r replies IH]; intros i st t x t'; cbn [trials];
    destruct (i <? n); try discriminate.
  destruct (sampleBitScore float CODONS e len r t) as [s t1|x1 t1|] eqn:Hs;
    [apply IH| |discriminate].
  apply sampleBitScore_Raise in Hs as [Hstop _].
  destruct x1; try (intros [= <- _]; split; [discriminate|exact Hstop]).
  apply IH.
Qed.

Lemma raises_only_sweep levels len n : forall replies st,
  raises_only escapes (sweep float CODONS levels len n replies st).
Proof.
  induction levels as [|e levels IH]; intros replies st; cbn [sweep].
  - apply raises_only_ret.
  - apply raises_only_bind; [apply raises_only_trials|]. intros r. apply IH.
Qed.

Lemma raises_only_plot bottom lhs rhs len inc n replies :
  raises_only escapes (plot float CODONS bottom lhs rhs len inc n replies).
Proof.
  unfold plot. destruct (Py.range 0 len inc) as [levels|];
    [|apply raises_only_raise; split; discriminate].
  apply raises_only_bind; [apply raises_only_sweep|]. intros r.
  apply raises_only_bind.
  - apply raises_only_mapM. intros e. unfold rate.
    destruct (n =? 0);
      [apply raises_only_raise; split; discriminate|apply raises_only_ret].
  - intros sY. apply raises_only_bind; [|intros; apply raises_only_ret].
    unfold pymax. destruct (bitscores r.1);
      [apply raises_only_raise; split; discriminate|apply raises_only_ret].
Qed.

(** X5: [plot] absorbs every time-out: whatever the replies and the draws,
    the exception it raises, if any, is not [TimeoutExpired] (nor
    [StopIteration]). *)
Theorem plot_absorbs_timeouts bottom lhs rhs len inc n replies t e t' :
  plot float CODONS bottom lhs rhs len inc n replies t = Raise e t' ->
  e <> TimeoutExpired /\ e <> StopIteration.
Proof. apply raises_only_plot. Qed.


End Errors.

Lemma plot_absorbs_timeouts_witness :
  exists t',
    plot readDecimal codonsACD true true false 4 2 1
         [BlastxTimeout; BlastxFailed] drawsAB = Raise CalledProcessError t' /\
    CalledProcessError <> TimeoutExpired.
Proof.
  destruct (plot readDecimal codonsACD true true false 4 2 1
                 [BlastxTimeout; BlastxFailed] drawsAB)
    as [[c r] t'|e t'|] eqn:Hrun; [vm_compute in Hrun; discriminate| |
                                   vm_compute in Hrun; discriminate].
  assert (e = CalledProcessError) as ->
    by (vm_compute in Hrun; now injection Hrun as <- _).
  exists t'. split; [reflexivity|].
  apply (plot_absorbs_timeouts readDecimal codonsACD true true false 4 2 1
           [BlastxTimeout; BlastxFailed] drawsAB CalledProcessError t' Hrun).
Defined.


(** ** Sweeps with nothing to sweep *)

Lemma extendErrorCounts_none e n st :
  n <= 0 -> extendErrorCounts e n st = st.
Proof.
  intros Hn. unfold extendErrorCounts.
  replace (Z.to_nat n) with 0%nat by lia. cbn [replicate].
  rewrite app_nil_r. now destruct st.
Qed.

Section Degenerate.

Variable float : string -> option Q.
Variable CODONS : list (ascii * list string).

Lemma sweep_none levels len n replies st t :
  n <= 0 ->
  sweep float CODONS levels len n replies st t = Ret (st, replies) t.
Proof.
  intros Hn. revert st. induction levels as [|e levels IH]; intros st;
    [reflexivity|].
  cbn [sweep]. unfold bind. rewrite trials_done by lia. cbn [fst snd].
  rewrite extendErrorCounts_none by exact Hn. apply IH.
Qed.

(** X7: a sweep with no level to visit draws nothing and asks DIAMOND
    nothing, and [plot] ends in [ValueError]: from [range] when
    [errorIncrement] is 0, from [max] on the empty list when [length <= 0]
    (or the increment is negative). *)
Theorem plot_without_levels bottom lhs rhs len inc n replies t :
  inc = 0 \/ (1 <= inc /\ len <= 0) \/ (inc < 0 /\ 0 <= len) ->
  plot float CODONS bottom lhs rhs len inc n replies t = Raise ValueError t.
Proof.
  intros Hcase. unfold plot.
  destruct Hcase as [->|Hcase]; [reflexivity|].
  assert (Hr : Py.range 0 len inc = Some []).
  { unfold Py.range, Py.range_len.
    destruct Hcase as [[Hinc Hlen]|[Hinc Hlen]].
    - rewrite (proj2 (Z.eqb_neq inc 0)), (proj2 (Z.ltb_lt 0 inc)),
        (proj2 (Z.ltb_ge 0 len)) by lia. reflexivity.
    - rewrite (proj2 (Z.eqb_neq inc 0)), (proj2 (Z.ltb_ge 0 inc)),
        (proj2 (Z.ltb_ge len 0)) by lia. reflexivity. }
  rewrite Hr. reflexivity.
Qed.

(** X8: with levels to visit but [iterations <= 0] no trial is run, nothing
    is drawn and no reply is used; [plot] then ends in [ZeroDivisionError]
    when [iterations] is 0 (the match rate) and in [ValueError] when it is
    negative ([max] of no score). *)
Theorem plot_without_iterations bottom lhs rhs len inc n replies t :
  1 <= len -> 1 <= inc -> n <= 0 ->
  plot float CODONS bottom lhs rhs len inc n replies t
  = Raise (if n =? 0 then ZeroDivisionError else ValueError) t.
Proof.
  intros Hlen Hinc Hn. unfold plot.
  destruct (Py.range 0 len inc) as [levels|] eqn:Hr.
  2: { unfold Py.range in Hr. rewrite (proj2 (Z.eqb_neq inc 0)) in Hr by lia.
       discriminate. }
  assert (Hin : 0 ∈ levels).
  { apply (range_elem _ _ _ 0 Hinc Hr). exists 0. lia. }
  unfold bind at 1. rewrite sweep_none by exact Hn. cbn [fst snd].
  destruct (n =? 0) eqn:Hz.
  - destruct levels as [|e levels]; [inversion Hin|].
    cbn [Py.mapM]. unfold bind at 1. unfold bind at 1. unfold rate at 1.
    now rewrite Hz.
  - apply Z.eqb_neq in Hz. unfold bind at 1. rewrite mapM_rate by exact Hz.
    reflexivity.
Qed.

End Degenerate.

Lemma plot_without_levels_witness :
  plot readDecimal codonsACD true true false 10 0 3 script drawsAB
  = Raise ValueError drawsAB /\
  plot readDecimal codonsACD true true false 0 5 3 script drawsAB
  = Raise ValueError drawsAB.
Proof.
  split.
  - apply (plot_without_levels readDecimal codonsACD). now left.
  - apply (plot_without_levels readDecimal codonsACD). right. left. lia.
Defined.

Lemma plot_without_iterations_witness :
  plot readDecimal codonsACD true true false 10 5 0 script drawsAB
  = Raise ZeroDivisionError drawsAB.
Proof.
  apply (plot_without_iterations readDecimal codonsACD true true false 10 5 0
           script drawsAB); lia.
Defined.

(** ** Values and colours *)

Lemma plotted_by_colour m ss v col :
  0 <= m -> (v, col) ∈ plotted m ss ->
  (col = missColor /\ (v < 0)%Q) \/
  (col = matchColor /\ v ∈ ss /\ ~ (v == 0)%Q).
Proof.
  revert m. induction ss as [|s ss IH]; intros m Hm; cbn [plotted];
    [intros H; inversion H|].
  destruct (Qeq_bool s 0) eqn:Hz.
  - intros [Heq|Hin]%elem_of_cons.
    + injection Heq as -> ->. left. split; [reflexivity|].
      unfold Qlt, inject_Z, zeroBitscoreScale. cbn [Qnum Qden]. lia.
    + destruct (IH (m + 1) ltac:(lia) Hin) as [H|(Hc & Hv & Hnz)];
        [now left|right]. split; [exact Hc|]. split; [now right|exact Hnz].
  - intros [Heq|Hin]%elem_of_cons.
    + injection Heq as -> ->. right. split; [reflexivity|]. split; [left|].
      intros Hq. apply Qeq_bool_iff in Hq. congruence.
    + destruct (IH m Hm Hin) as [H|(Hc & Hv & Hnz)]; [now left|right].
      split; [exact Hc|]. split; [now right|exact Hnz].
Qed.

Lemma plotted_matches m ss :
  Z.of_nat (length (filter (fun vc : Q * string => vc.2 = matchColor)
                           (plotted m ss))) = hits ss.
Proof.
  revert m. induction ss as [|s ss IH]; intros m; [reflexivity|].
  cbn [plotted]. rewrite hits_cons. destruct (Qeq_bool s 0).
  - rewrite filter_cons, decide_False by discriminate. rewrite IH. lia.
  - rewrite filter_cons, decide_True by reflexivity.
    simpl length. rewrite <- (IH m). lia.
Qed.

Section Colours.

Variable float : string -> option Q.
Variable CODONS : list (ascii * list string).

(** X9: in a cell [plot] returns, every point has one of the two colours:
    the miss colour with a value strictly below zero, or the match colour
    with a score that is not zero.  No point is plotted at zero. *)
Theorem points_by_colour bottom lhs rhs len inc n replies t c replies' t' :
  1 <= inc -> 1 <= n ->
  plot float CODONS bottom lhs rhs len inc n replies t = Ret (c, replies') t' ->
  forall i v col,
    scatterY c !! i = Some v -> scatterColor c !! i = Some col ->
    ((col = missColor /\ (v < 0)%Q) \/ (col = matchColor /\ ~ (v == 0)%Q)) /\
    ~ (v == 0)%Q.
Proof.
  intros Hinc Hn Hplot i v col Hv Hc.
  destruct (plot_Ret float CODONS _ _ _ _ _ _ _ _ _ _ _ Hinc Hn Hplot)
    as (levels & trace & top & _ & _ & _ & _ & Hy & Hcol & _).
  rewrite Hy in Hv. rewrite Hcol in Hc.
  rewrite list_lookup_fmap in Hv. rewrite list_lookup_fmap in Hc.
  destruct ((table levels trace).*2 !! i) as [[v0 c0]|] eqn:Hi; [|discriminate].
  cbn in Hv, Hc. injection Hv as ->. injection Hc as ->.
  assert (Hin : (v, col) ∈ (table levels trace).*2)
    by (apply list_elem_of_lookup; eauto).
  apply table_snd_elem in Hin as (ss & _ & Hin).
  destruct (plotted_by_colour 0 ss v col ltac:(lia) Hin)
    as [[-> Hlt]|(-> & _ & Hnz)].
  - split; [now left|]. intros Hq. rewrite Hq in Hlt. now apply Qlt_irrefl in Hlt.
  - split; [now right|exact Hnz].
Qed.

(** X10: whatever scores the oracle reports, the match-rate point of a
    level is the number of its trials shown in the match colour over
    [iterations], and with the misses shown at that level these make up the
    [iterations] trials. *)
Theorem rate_counts_match_colour bottom lhs rhs len inc n replies t c replies' t' :
  1 <= inc -> 1 <= n ->
  plot float CODONS bottom lhs rhs len inc n replies t = Ret (c, replies') t' ->
  forall j e, successX c !! j = Some e ->
    successY c !! j = Some (inject_Z (shownMatchesAt e c) / inject_Z n)%Q /\
    shownMatchesAt e c + Z.of_nat (length (missValuesAt e c)) = n.
Proof.
  intros Hinc Hn Hplot j e Hj.
  destruct (plot_outcomes float CODONS _ _ _ _ _ _ _ _ _ _ _ Hinc Hn Hplot)
    as (levels & trace & Hr & Hnd & Hsw & Hlen & Hrows & Hout & HsX & HsY).
  rewrite HsX in Hj.
  destruct (lookup_lt_is_Some_2 trace j) as [ss Hss].
  { rewrite Hlen. eapply lookup_lt_Some, Hj. }
  assert (Hm : shownMatchesAt e c = hits ss).
  { unfold shownMatchesAt. rewrite Hout.
    pose proof (table_filter_level (fun vc => vc.2 = matchColor)
                  e levels trace j ss Hnd Hj Hss) as Hf.
    cbn beta in Hf. rewrite Hf, length_map. apply plotted_matches. }
  assert (Hmiss : Z.of_nat (length (missValuesAt e c)) = misses ss).
  { unfold missValuesAt. rewrite Hout.
    pose proof (table_filter_level (fun vc => vc.2 = missColor)
                  e levels trace j ss Hnd Hj Hss) as Hf.
    cbn beta in Hf. rewrite Hf, map_map. cbn [snd fst].
    change (map (fun x : Q * string => x.1) ?l) with (l.*1).
    rewrite plotted_misses, length_map, length_seq.
    pose proof (misses_nonneg ss). lia. }
  rewrite HsY, list_lookup_fmap, Hss, Hm, Hmiss. split; [reflexivity|].
  rewrite hits_misses. rewrite Forall_forall in Hrows.
  apply Hrows, list_elem_of_lookup. eauto.
Qed.

End Colours.

Lemma points_by_colour_witness :
  scatterColor cellExample !! 1%nat = Some missColor /\
  forall i v col,
    scatterY cellExample !! i = Some v -> scatterColor cellExample !! i = Some col ->
    ((col = missColor /\ (v < 0)%Q) \/ (col = matchColor /\ ~ (v == 0)%Q)) /\
    ~ (v == 0)%Q.
Proof.
  split; [reflexivity|].
  apply (points_by_colour readDecimal codonsACD true true false 10 5 3
           script drawsAB cellExample [] (drop 218 drawsAB));
    [lia | lia | vm_compute; reflexivity].
Defined.

Lemma rate_counts_match_colour_witness :
  shownMatchesAt 5 cellExample = 2 /\
  forall j e, successX cellExample !! j = Some e ->
    successY cellExample !! j
    = Some (inject_Z (shownMatchesAt e cellExample) / inject_Z 3)%Q /\
    shownMatchesAt e cellExample
    + Z.of_nat (length (missValuesAt e cellExample)) = 3.
Proof.
  split; [vm_compute; reflexivity|].
  apply (rate_counts_match_colour readDecimal codonsACD true true false 10 5 3
           script drawsAB cellExample [] (drop 218 drawsAB));
    [lia | lia | vm_compute; reflexivity].
Defined.

(** ** The figure *)

Section Figure.

Variable float : string -> option Q.
Variable CODONS : list (ascii * list string).
Variables (length errorIncrement iterations : Z).

Lemma plot_flags bottom lhs rhs replies t c replies' t' :
  plot float CODONS bottom lhs rhs length errorIncrement iterations replies t
  = Ret (c, replies') t' ->
  xlabel c = bottom /\ ylabel c = lhs /\ y2label c = rhs.
Proof.
  unfold plot. destruct (Py.range 0 length errorIncrement); [|discriminate].
  intros (r & t1 & _ & H)%bind_Ret_inv.
  apply bind_Ret_inv in H as (sY & t2 & _ & H).
  apply bind_Ret_inv in H as (top & t3 & _ & [= <- _ _]).
  now cbn.
Qed.

Lemma placeAll_flags rows cols sens : forall dimensions replies t ps left replies' t',
  placeAll float CODONS length errorIncrement iterations rows cols sens
           dimensions replies t = Ret (ps, left, replies') t' ->
  Forall (fun p => xlabel (drawn p) = (row p =? rows - 1) /\
                   ylabel (drawn p) = (col p =? 0) /\
                   y2label (drawn p) = (col p =? cols - 1)) ps.
Proof.
  induction sens as [|s sens IH]; intros dimensions replies t ps left replies' t';
    cbn [placeAll].
  - intros [= <- _ _ _]. constructor.
  - destruct dimensions as [|[r c] dimensions]; [discriminate|].
    intros ([cl r1] & t1 & Hplot & H)%bind_Ret_inv.
    apply bind_Ret_inv in H as ([[ps0 left0] r2] & t2 & Hrest & [= <- _ _ _]).
    cbn [fst snd] in *. constructor; [|eapply IH; exact Hrest].
    cbn [drawn row col]. eapply plot_flags, Hplot.
Qed.

(** X11: in a figure [main] lays out, a subplot carries the label of the
    horizontal axis exactly when it lies in the last row of the grid, the
    label of the left axis exactly in column 0, and the label of the right
    axis exactly in the last column. *)
Theorem labels_on_the_edges sens cols replies t fig replies' t' :
  layout float CODONS length errorIncrement iterations sens cols replies t
  = Ret (fig, replies') t' ->
  let rows := gridRows (Z.of_nat (List.length sens)) cols in
  forall p, p ∈ subplots fig ->
    (xlabel (drawn p) = true <-> row p = rows - 1) /\
    (ylabel (drawn p) = true <-> col p = 0) /\
    (y2label (drawn p) = true <-> col p = cols - 1).
Proof.
  intros Hrun rows p Hp. unfold layout in Hrun. fold rows in Hrun.
  apply bind_Ret_inv in Hrun as ([[ps left] r1] & t1 & Hplace & [= <- _ _]).
  cbn [fst snd subplots] in Hp.
  apply placeAll_flags in Hplace. rewrite Forall_forall in Hplace.
  destruct (Hplace p Hp) as (-> & -> & ->).
  rewrite !Z.eqb_eq. tauto.
Qed.

Lemma raises_only_placeAll rows cols sens : forall dimensions replies,
  (List.length sens <= List.length dimensions)%nat ->
  raises_only escapes
    (placeAll float CODONS length errorIncrement iterations rows cols sens
              dimensions replies).
Proof.
  induction sens as [|s sens IH]; intros dimensions replies Hlen; cbn [placeAll].
  - apply raises_only_ret.
  - destruct dimensions as [|[r c] dimensions]; [cbn in Hlen; lia|].
    apply raises_only_bind; [apply raises_only_plot|]. intros p.
    apply raises_only_bind; [|intros; apply raises_only_ret].
    apply IH. cbn in Hlen. lia.
Qed.

(** X12: with [cols >= 1] the grid has a cell for every configuration:
    whatever happens in the subplots, the layout never ends in
    [StopIteration] (nor in [TimeoutExpired]). *)
Theorem grid_never_exhausted sens cols replies t e t' :
  1 <= cols ->
  layout float CODONS length errorIncrement iterations sens cols replies t
  = Raise e t' ->
  e <> StopIteration /\ e <> TimeoutExpired.
Proof.
  intros Hcols Hrun.
  assert (Hesc : escapes e); [|destruct Hesc; now split].
  revert t e t' Hrun. change (raises_only escapes
    (layout float CODONS length errorIncrement iterations sens cols replies)).
  unfold layout. apply raises_only_bind; [|intros; apply raises_only_ret].
  apply raises_only_placeAll.
  destruct (gridRows_ceiling (Z.of_nat (List.length sens)) cols Hcols ltac:(lia))
    as [_ Hb].
  rewrite dimensionalIterator_cells, length_map, length_seq. nia.
Qed.

End Figure.

Lemma labels_on_the_edges_witness :
  exists fig replies' t',
    main readDecimal codonsACD 4 2 1 (replicate 16 (BlastxOutput outHit))
         (drawsAB ++ drawsAB) = Ret (fig, replies') t' /\
    forall p, p ∈ subplots fig ->
      (xlabel (drawn p) = true <-> row p = 2) /\
      (ylabel (drawn p) = true <-> col p = 0) /\
      (y2label (drawn p) = true <-> col p = 2).
Proof.
  destruct (main readDecimal codonsACD 4 2 1 (replicate 16 (BlastxOutput outHit))
                 (drawsAB ++ drawsAB))
    as [[fig replies'] t'| |] eqn:Hrun; [|vm_compute in Hrun; discriminate..].
  exists fig, replies', t'. split; [reflexivity|].
  apply (labels_on_the_edges readDecimal codonsACD 4 2 1 sensitivities cols
           (replicate 16 (BlastxOutput outHit)) (drawsAB ++ drawsAB)
           fig replies' t' Hrun).
Defined.

Lemma grid_never_exhausted_witness :
  exists t',
    main readDecimal codonsACD 4 2 1 [BlastxOutput outHit; BlastxFailed] drawsAB
    = Raise CalledProcessError t' /\
    CalledProcessError <> StopIteration.
Proof.
  destruct (main readDecimal codonsACD 4 2 1 [BlastxOutput outHit; BlastxFailed]
                 drawsAB)
    as [[c r] t'|e t'|] eqn:Hrun; [vm_compute in Hrun; discriminate| |
                                   vm_compute in Hrun; discriminate].
  assert (e = CalledProcessError) as ->
    by (vm_compute in Hrun; now injection Hrun as <- _).
  exists t'. split; [reflexivity|].
  apply (grid_never_exhausted readDecimal codonsACD 4 2 1 sensitivities cols
           [BlastxOutput outHit; BlastxFailed] drawsAB CalledProcessError t');
    [unfold cols; lia | exact Hrun].
Defined.

(** ** The oracle's replies a sweep uses *)

Lemma timeouts_app l k : timeouts (l ++ k) = (timeouts l + timeouts k)%nat.
Proof. unfold timeouts. now rewrite filter_app, length_app. Qed.

Section Replies.

Variable float : string -> option Q.
Variable CODONS : list (ascii * list string).

(** The replies used: time-outs and outputs only. *)
Definition used_ok (used : list reply) : Prop :=
  Forall (fun r => r = BlastxTimeout \/ exists out, r = BlastxOutput out) used.

Lemma scored_used e len replies t ss replies' t' :
  scored float CODONS e len replies t ss replies' t' ->
  exists used,
    replies = used ++ replies' /\ used_ok used /\
    length used = (length ss + timeouts used)%nat.
Proof.
  induction 1 as [replies t|r replies t t1 ss replies' t' Hs _ IH
                  |r replies t s t1 ss replies' t' Hs _ IH].
  - exists []. split; [reflexivity|]. split; [constructor|reflexivity].
  - destruct IH as (used & -> & Hok & Hlen).
    apply sampleBitScore_Raise in Hs as [_ Hr]. rewrite (Hr eq_refl).
    exists (BlastxTimeout :: used). split; [reflexivity|].
    split; [constructor; [now left|exact Hok]|].
    unfold timeouts in *. rewrite filter_cons, decide_True by reflexivity.
    simpl length. lia.
  - destruct IH as (used & -> & Hok & Hlen).
    apply sampleBitScore_Ret in Hs as (p & t0 & out & _ & -> & _).
    exists (BlastxOutput out :: used). split; [reflexivity|].
    split; [constructor; [right; eauto|exact Hok]|].
    unfold timeouts in *. rewrite filter_cons, decide_False by discriminate.
    simpl length. lia.
Qed.

Lemma swept_used len levels replies t trace replies' t' :
  swept float CODONS len levels replies t trace replies' t' ->
  exists used,
    replies = used ++ replies' /\ used_ok used /\
    length used = (length (concat trace) + timeouts used)%nat.
Proof.
  induction 1 as [replies t|e levels replies t ss r1 t1 trace r' t' Hsc _ IH].
  - exists []. split; [reflexivity|]. split; [constructor|reflexivity].
  - destruct IH as (used2 & -> & Hok2 & Hlen2).
    apply scored_used in Hsc as (used1 & -> & Hok1 & Hlen1).
    exists (used1 ++ used2). split; [now rewrite app_assoc|].
    split; [now apply Forall_app|].
    cbn [concat]. rewrite !length_app, timeouts_app. lia.
Qed.

Lemma concat_rows_length n (trace : list (list Q)) :
  Forall (fun ss => Z.of_nat (length ss) = n) trace ->
  Z.of_nat (length (concat trace)) = Z.of_nat (length trace) * n.
Proof.
  induction 1 as [|ss trace Hss _ IH]; [reflexivity|].
  cbn [concat]. rewrite length_app. simpl length. lia.
Qed.

(** X13: a sweep that returns has used a prefix of the script and left the
    rest: the replies used are time-outs and blastx outputs only, one
    output for each recorded trial, so their number is
    [numLevels * iterations] plus the number of time-outs. *)
Theorem replies_accounting bottom lhs rhs len inc n replies t c replies' t' :
  1 <= inc -> 1 <= n ->
  plot float CODONS bottom lhs rhs len inc n replies t = Ret (c, replies') t' ->
  exists used,
    replies = used ++ replies' /\
    Forall (fun r => r = BlastxTimeout \/ exists out, r = BlastxOutput out) used /\
    Z.of_nat (length used)
    = Z.of_nat (length (successX c)) * n + Z.of_nat (timeouts used).
Proof.
  intros Hinc Hn Hplot.
  destruct (plot_outcomes float CODONS _ _ _ _ _ _ _ _ _ _ _ Hinc Hn Hplot)
    as (levels & trace & _ & _ & Hsw & Hlen & Hrows & _ & HsX & _).
  apply swept_used in Hsw as (used & -> & Hok & Hused).
  exists used. split; [reflexivity|]. split; [exact Hok|].
  pose proof (concat_rows_length n trace Hrows) as Hc.
  rewrite HsX, <- Hlen. lia.
Qed.

End Replies.

Lemma replies_accounting_witness :
  exists used,
    script = used ++ [] /\
    Forall (fun r => r = BlastxTimeout \/ exists out, r = BlastxOutput out) used /\
    Z.of_nat (length used)
    = Z.of_nat (length (successX cellExample)) * 3 + Z.of_nat (timeouts used).
Proof.
  apply (replies_accounting readDecimal codonsACD true true false 10 5 3
           script drawsAB cellExample [] (drop 218 drawsAB));
    [lia | lia | vm_compute; reflexivity].
Defined.
